(** * hangialtin: the front-end comparison display (static/app.js)

    A shallow embedding of [displayResults], of [compareETFs] and of
    the JavaScript primitives they rely on, followed by their properties.

    The script is embedded twice.
    - The whole display, over exact rationals: every element written,
      every guard, and the [TypeError]s of the property accesses.  It
      carries the properties that rest on comparisons, on the branch
      taken, on what is printed where and on what throws.
    - The arithmetic of the display, over binary64 doubles (module
      [Doubles]): the two rankings, the per-gram price, the differences
      of the table rows and the cheapest mark of the cards.  It carries
      the properties that depend on the value of a quotient or on the
      order the sort returns, with rounding, underflow to 0 and overflow
      to [Infinity] as the script has them.

    Conventions of the first embedding.
    - A JavaScript number is a rational extended with [NaN] and the two
      infinities.  Rounding of IEEE doubles is abstracted away (arithmetic
      on finite values is exact) and [-0] is identified with [+0], so a
      division by zero takes the sign of its numerator.
    - A numeric property of a JSON object is [JUndefined] (key missing),
      [JNull], or a finite number: a JSON number literal denotes a
      rational, and JSON has no literal for NaN or Infinity.
    - The response has a [price_difference] object (possibly empty) and
      the [last_updated] of a fund, when present, is a date the browser
      can format: the [TypeError] of a missing [price_difference] and
      the [RangeError] of [formatDate] are outside the embedding.
    - The HTML text assembled by the template literals is represented by
      the values interpolated into it: a table row, a card or a formula
      line is a record of the numbers and flags the template shows.
      [formatPrice] and [toFixed] are identified with the number they
      format. *)

From Stdlib Require Import QArith Qabs Bool List String Lia Lqa.
From Stdlib Require Import Permutation Sorted.
From Stdlib Require Import ZArith Floats.
Import ListNotations.
Local Open Scope Q_scope.
Local Open Scope string_scope.
Local Open Scope list_scope.
Set Warnings "-inexact-float".

(** ** JavaScript numbers and values *)

Inductive jsnum : Type :=
| NaN
| PInf
| NInf
| Fin (q : Q).

Inductive jsval : Type :=
| JUndefined
| JNull
| JNumber (n : jsnum).

(** A numeric JSON property: missing, [null] or a finite number. *)
Inductive field : Type :=
| Absent
| Null
| Num (q : Q).

Definition field_val (f : field) : jsval :=
  match f with
  | Absent => JUndefined
  | Null => JNull
  | Num q => JNumber (Fin q)
  end.

Coercion field_val : field >-> jsval.

(** [ToNumber] of the language specification, on the values above. *)
Definition ToNumber (v : jsval) : jsnum :=
  match v with
  | JUndefined => NaN
  | JNull => Fin 0
  | JNumber n => n
  end.

Definition Qeqb0 (q : Q) : bool := Qeq_bool q 0.
Definition Qpos (q : Q) : bool := negb (Qle_bool q 0).
Definition Qneg (q : Q) : bool := negb (Qle_bool 0 q).

(** [ToBoolean]: [undefined], [null], [0] and [NaN] are falsy. *)
Definition num_truthy (n : jsnum) : bool :=
  match n with
  | NaN => false
  | PInf | NInf => true
  | Fin q => negb (Qeqb0 q)
  end.

Definition truthy (v : jsval) : bool :=
  match v with
  | JUndefined | JNull => false
  | JNumber n => num_truthy n
  end.

Definition num_sub (a b : jsnum) : jsnum :=
  match a, b with
  | NaN, _ | _, NaN => NaN
  | PInf, PInf | NInf, NInf => NaN
  | PInf, _ => PInf
  | NInf, _ => NInf
  | Fin _, PInf => NInf
  | Fin _, NInf => PInf
  | Fin x, Fin y => Fin (x - y)
  end.

(** The sign an infinite product or quotient takes from a finite operand. *)
Definition signed_inf (positive : bool) : jsnum :=
  if positive then PInf else NInf.

Definition num_mul (a b : jsnum) : jsnum :=
  match a, b with
  | NaN, _ | _, NaN => NaN
  | Fin x, Fin y => Fin (x * y)
  | PInf, PInf | NInf, NInf => PInf
  | PInf, NInf | NInf, PInf => NInf
  | PInf, Fin y | Fin y, PInf =>
      if Qeqb0 y then NaN else signed_inf (Qpos y)
  | NInf, Fin y | Fin y, NInf =>
      if Qeqb0 y then NaN else signed_inf (Qneg y)
  end.

Definition num_div (a b : jsnum) : jsnum :=
  match a, b with
  | NaN, _ | _, NaN => NaN
  | Fin x, Fin y =>
      if Qeqb0 y
      then (if Qeqb0 x then NaN else signed_inf (Qpos x))
      else Fin (x / y)
  | Fin _, (PInf | NInf) => Fin 0
  | (PInf | NInf), (PInf | NInf) => NaN
  | PInf, Fin y => signed_inf (negb (Qneg y))
  | NInf, Fin y => signed_inf (Qneg y)
  end.

Definition num_abs (a : jsnum) : jsnum :=
  match a with
  | NaN => NaN
  | PInf | NInf => PInf
  | Fin q => Fin (Qabs q)
  end.

(** [a < b]; any comparison with [NaN] is false. *)
Definition num_ltb (a b : jsnum) : bool :=
  match a, b with
  | NaN, _ | _, NaN => false
  | _, NInf => false
  | PInf, _ => false
  | NInf, _ => true
  | Fin _, PInf => true
  | Fin x, Fin y => negb (Qle_bool y x)
  end.

Definition num_leb (a b : jsnum) : bool :=
  match a, b with
  | NaN, _ | _, NaN => false
  | NInf, _ => true
  | _, PInf => true
  | PInf, _ => false
  | Fin _, NInf => false
  | Fin x, Fin y => Qle_bool x y
  end.

Definition num_is_finite (a : jsnum) : bool :=
  match a with
  | Fin _ => true
  | _ => false
  end.

(** Equality of numbers up to the representation of the rational. *)
Definition num_eqv (a b : jsnum) : Prop :=
  match a, b with
  | NaN, NaN | PInf, PInf | NInf, NInf => True
  | Fin x, Fin y => x == y
  | _, _ => False
  end.

(** The operators on values: both operands go through [ToNumber]. *)
Definition js_div (a b : jsval) : jsnum := num_div (ToNumber a) (ToNumber b).
Definition js_sub (a b : jsval) : jsnum := num_sub (ToNumber a) (ToNumber b).
Definition js_gt (a b : jsval) : bool := num_ltb (ToNumber b) (ToNumber a).
Definition js_ge (a b : jsval) : bool := num_leb (ToNumber b) (ToNumber a).

(** [x || y] on values. *)
Definition js_or (a b : jsval) : jsval := if truthy a then a else b.

(** ** Exceptions *)

Inductive exc (A : Type) : Type :=
| Ok (a : A)
| TypeError (where_ : string).

Arguments Ok {A} a.
Arguments TypeError {A} where_.

Definition bind {A B} (m : exc A) (k : A -> exc B) : exc B :=
  match m with
  | Ok a => k a
  | TypeError w => TypeError w
  end.

Notation "x <- m ;; k" := (bind m (fun x => k))
  (at level 61, m at next level, right associativity).

Fixpoint mapM {A B} (f : A -> exc B) (l : list A) : exc (list B) :=
  match l with
  | [] => Ok []
  | a :: t => b <- f a ;; bs <- mapM f t ;; Ok (b :: bs)
  end.

(** [v.toFixed(d)]: a method call on [undefined] or [null] throws. *)
Definition toFixed (what : string) (v : jsval) : exc jsnum :=
  match v with
  | JNumber n => Ok n
  | _ => TypeError what
  end.

(** [formatPrice(v)]: [Intl.NumberFormat.format] converts with [ToNumber]. *)
Definition formatPrice (v : jsval) : jsnum := ToNumber v.

(** ** The data received from the back end *)

Record Etf : Type := {
  symbol : string;
  name : string;
  current_price : field;
  gold_backing_grams : field;
  nav_price : field;
  change_percent : field;
  volume : field;
  stopaj_rate : field;
  expense_ratio : field;
  (** when present, a well-formed ISO timestamp *)
  last_updated : option string
}.

Record PriceDiff : Type := {
  per_gram_price : field;
  percent : field
}.

(** The parsed response of [/gold-etf/compare].  [price_difference] is an
    object keyed by symbol; in a JSON object a repeated key keeps its last
    value. *)
Record Data : Type := {
  recommendation : string;
  all_etfs : list Etf;
  price_difference : list (string * PriceDiff);
  spot_gram_gold_price : field
}.

Fixpoint get_property {A} (o : list (string * A)) (k : string) : option A :=
  match o with
  | [] => None
  | (k', a) :: rest =>
      match get_property rest k with
      | Some a' => Some a'
      | None => if String.eqb k' k then Some a else None
      end
  end.

(** The elements looked up with [getElementById].  [loading], [error] and
    [results] are dereferenced unguarded by [compareETFs] before it calls
    [displayResults], so they exist whenever [displayResults] runs; the
    other three may be missing. *)
Record Dom : Type := {
  dom_recommendation : bool;
  dom_etfList : bool;
  dom_baseValueComparison : bool
}.

Definition dom_full : Dom :=
  {| dom_recommendation := true;
     dom_etfList := true;
     dom_baseValueComparison := true |}.

(** ** [Array.prototype.sort] with a comparator

    The language requires the sort to be stable and, for a consistent
    comparator, to return the elements in comparator order; that result
    is then the same for every engine.  It is computed here by stable
    insertion.  [b] is placed before [a] exactly when [cmp a b > 0]; a
    comparator value of [NaN] counts as [+0].  With a [NaN] key the
    comparator is not consistent and the order is left to the engine; the
    properties below that speak of an order are stated for finite keys. *)

Section Sort.
Context {A : Type} (cmp : A -> A -> jsnum).

Definition comes_after (a b : A) : bool := num_ltb (Fin 0) (cmp a b).

Fixpoint sort_insert (x : A) (l : list A) : list A :=
  match l with
  | [] => [x]
  | h :: t => if comes_after x h then h :: sort_insert x t else x :: h :: t
  end.

Definition js_sort (l : list A) : list A := fold_right sort_insert [] l.
End Sort.

(** ** [displayResults]: ranking used for the cards *)

Record PerGramItem : Type := {
  pg_etf : Etf;
  pg_perGramPrice : jsnum
}.

Definition perGram (etf : Etf) : jsnum :=
  js_div (current_price etf) (gold_backing_grams etf).

Definition byPerGram (a b : PerGramItem) : jsnum :=
  num_sub (pg_perGramPrice a) (pg_perGramPrice b).

Definition etfsWithPerGram (data : Data) : list PerGramItem :=
  js_sort byPerGram
    (map (fun etf => {| pg_etf := etf; pg_perGramPrice := perGram etf |})
       (filter (fun etf => truthy (gold_backing_grams etf)) (all_etfs data))).

Definition cheapestPerGramPrice (data : Data) : jsval :=
  match etfsWithPerGram data with
  | [] => JNull
  | first :: _ => JNumber (pg_perGramPrice first)
  end.

Definition cheapestEtfSymbol (data : Data) : option string :=
  match etfsWithPerGram data with
  | [] => None
  | first :: _ => Some (symbol (pg_etf first))
  end.

(** ** [displayResults]: base value between ZGOLD and GLDTR *)

Definition has_symbol (s : string) (etf : Etf) : bool := String.eqb (symbol etf) s.

Definition zero : jsval := JNumber (Fin 0).

Definition baseValue (data : Data) : jsval :=
  match find (has_symbol "ZGOLD") (all_etfs data),
        find (has_symbol "GLDTR") (all_etfs data) with
  | Some zgoldEtf, Some gldtrEtf =>
      if js_gt (current_price zgoldEtf) zero && js_gt (current_price gldtrEtf) zero
      then JNumber (js_div (current_price gldtrEtf) (current_price zgoldEtf))
      else JNull
  | _, _ => JNull
  end.

Definition spotGramGoldPrice (data : Data) : jsval :=
  js_or (spot_gram_gold_price data) JNull.

(** ** [displayResults]: ranking used for the comparison table *)

Record BaseValueItem : Type := {
  bv_etf : Etf;
  bv_baseValue : jsval;
  bv_perGramPrice : jsnum;
  bv_formula : string
}.

Definition byBaseValue (a b : BaseValueItem) : jsnum :=
  num_sub (bv_perGramPrice a) (bv_perGramPrice b).

Definition has_price_and_backing (etf : Etf) : bool :=
  js_gt (current_price etf) zero
  && truthy (gold_backing_grams etf)
  && js_gt (gold_backing_grams etf) zero.

Definition base_value_item (etf : Etf) : BaseValueItem :=
  let goldBacking : jsval := gold_backing_grams etf in
  let perGramPrice := js_div (current_price etf) goldBacking in
  {| bv_etf := etf;
     bv_baseValue := goldBacking;
     bv_perGramPrice := perGramPrice;
     bv_formula :=
       if String.eqb (symbol etf) "ZGOLD" then "ZGOLD Fiyatı = Altın karşılığı × Gram altın fiyatı"
       else if String.eqb (symbol etf) "GLDTR" then "GLDTR Fiyatı = Altın karşılığı × Gram altın fiyatı"
       else "ETF Fiyatı = Altın karşılığı × Gram altın fiyatı" |}.

Definition qualifying (data : Data) : list BaseValueItem :=
  map base_value_item (filter has_price_and_backing (all_etfs data)).

Definition etfsWithBaseValue (data : Data) : list BaseValueItem :=
  js_sort byBaseValue (qualifying data).

(** ** [displayResults]: the comparison table *)

(** The NAV cell of a row: the NAV shown and, when both NAV and price are
    truthy, the premium or discount of the price over it. *)
Record NavCell : Type := {
  nav_shown : jsnum;
  nav_diff : option (jsnum * jsnum * bool)
}.

Record Row : Type := {
  row_symbol : string;
  row_isBest : bool;
  row_baseValue : jsnum;
  row_navUpdated : bool;
  row_price : jsnum;
  (** [None]: no NAV column; [Some None]: the cell reads N/A *)
  row_nav : option (option NavCell);
  row_stopaj : option jsnum;
  row_expense : option jsnum;
  row_perGramPrice : jsnum;
  row_priceDiffPercent : jsnum;
  row_priceDiffAbsolute : jsnum;
  (** the difference line, printed for every row but the best *)
  row_diffShown : option (jsnum * jsnum)
}.

Definition hundred : jsnum := Fin 100.

Definition has_nav (etf : Etf) : bool :=
  truthy (nav_price etf) && js_gt (nav_price etf) zero.

Definition hasNavData (items : list BaseValueItem) : bool :=
  existsb (fun item => has_nav (bv_etf item)) items.

(** [v !== null && v !== undefined ? v.toFixed(2) : '-'] *)
Definition percentDisplay (what : string) (v : jsval) : exc (option jsnum) :=
  match v with
  | JNull | JUndefined => Ok None
  | _ => n <- toFixed what v ;; Ok (Some n)
  end.

Definition navCell (etf : Etf) : option NavCell :=
  if truthy (nav_price etf) then
    Some {| nav_shown := formatPrice (nav_price etf);
            nav_diff :=
              if truthy (nav_price etf) && truthy (current_price etf) then
                let navDiff := js_sub (current_price etf) (nav_price etf) in
                let navDiffPercent :=
                  num_mul (num_div navDiff (ToNumber (nav_price etf))) hundred in
                let isPremium := num_ltb (Fin 0) navDiff in
                Some (formatPrice (JNumber navDiff), navDiffPercent, isPremium)
              else None |}
  else None.

(** The body of [etfsWithBaseValue.forEach((item, index) => ...)]. *)
Definition renderRow (bestValueEtf : BaseValueItem) (navColumn : bool)
    (index : nat) (item : BaseValueItem) : exc Row :=
  let isBest := Nat.eqb index 0 in
  let etf := bv_etf item in
  let perGramPrice := js_div (current_price etf) (gold_backing_grams etf) in
  stopajDisplay <- percentDisplay "stopaj_rate.toFixed" (stopaj_rate etf) ;;
  expenseDisplay <- percentDisplay "expense_ratio.toFixed" (expense_ratio etf) ;;
  let cheapest := bv_perGramPrice bestValueEtf in
  let priceDiffPercent :=
    if isBest then Fin 0
    else num_mul (num_div (num_sub perGramPrice cheapest) cheapest) hundred in
  let priceDiffAbsolute :=
    if isBest then Fin 0 else num_sub perGramPrice cheapest in
  shownBase <- toFixed "baseValue.toFixed" (bv_baseValue item) ;;
  Ok {| row_symbol := symbol etf;
        row_isBest := isBest;
        row_baseValue := shownBase;
        row_navUpdated := has_nav etf;
        row_price := formatPrice (current_price etf);
        row_nav := if navColumn then Some (navCell etf) else None;
        row_stopaj := stopajDisplay;
        row_expense := expenseDisplay;
        row_perGramPrice := formatPrice (JNumber perGramPrice);
        row_priceDiffPercent := priceDiffPercent;
        row_priceDiffAbsolute := priceDiffAbsolute;
        row_diffShown :=
          if negb isBest
          then Some (formatPrice (JNumber priceDiffAbsolute), priceDiffPercent)
          else None |}.

Fixpoint forEachIndexed {A B} (f : nat -> A -> exc B) (index : nat)
    (l : list A) : exc (list B) :=
  match l with
  | [] => Ok []
  | a :: t => b <- f index a ;; bs <- forEachIndexed f (S index) t ;; Ok (b :: bs)
  end.

(** One entry of the list under the best fund: another fund against it. *)
Record OtherEtf : Type := {
  other_symbol : string;
  other_perGramPrice : jsnum;
  other_diffAbsolute : jsnum;
  other_diffPercent : jsnum
}.

Definition otherEtf (bestValueEtf item : BaseValueItem) : OtherEtf :=
  let diffPercent :=
    num_mul (num_div (num_sub (bv_perGramPrice item) (bv_perGramPrice bestValueEtf))
               (bv_perGramPrice bestValueEtf)) hundred in
  let diffAbsolute := num_sub (bv_perGramPrice item) (bv_perGramPrice bestValueEtf) in
  {| other_symbol := symbol (bv_etf item);
     other_perGramPrice := formatPrice (JNumber (bv_perGramPrice item));
     other_diffAbsolute := formatPrice (JNumber diffAbsolute);
     other_diffPercent := diffPercent |}.

(** A line of the worked examples: the symbol it is printed for, the price,
    the backing and the per-gram price it shows. *)
Record Example : Type := {
  ex_symbol : string;
  ex_price : jsnum;
  ex_baseValue : jsnum;
  ex_perGramPrice : jsnum
}.

Definition find_item (s : string) (items : list BaseValueItem) : option BaseValueItem :=
  find (fun e => String.eqb (symbol (bv_etf e)) s) items.

(** With a spot price: the line is printed when the fund is ranked. *)
Definition exampleWithSpot (items : list BaseValueItem) (s : string)
    : exc (option Example) :=
  match find_item s items with
  | Some found =>
      shownBase <- toFixed "baseValue.toFixed" (bv_baseValue found) ;;
      Ok (Some {| ex_symbol := s;
                  ex_price := formatPrice (current_price (bv_etf found));
                  ex_baseValue := shownBase;
                  ex_perGramPrice := formatPrice (JNumber (bv_perGramPrice found)) |})
  | None => Ok None
  end.

(** Without a spot price every operand is read as [find(...)?.x || 0]. *)
Definition exampleFallback (items : list BaseValueItem) (s : string) : exc Example :=
  match find_item s items with
  | Some found =>
      shownBase <- toFixed "baseValue.toFixed" (bv_baseValue found) ;;
      Ok {| ex_symbol := s;
            ex_price := formatPrice (js_or (current_price (bv_etf found)) zero);
            ex_baseValue := shownBase;
            ex_perGramPrice :=
              formatPrice (js_or (JNumber (bv_perGramPrice found)) zero) |}
  | None =>
      Ok {| ex_symbol := s;
            ex_price := formatPrice zero;
            ex_baseValue := Fin 0;
            ex_perGramPrice := formatPrice zero |}
  end.

(** The ZGOLD line is printed unconditionally; the GLDTR and ISGLK lines
    only when the fund is ranked. *)
Definition exampleWithoutSpot (items : list BaseValueItem) (s : string)
    : exc (option Example) :=
  if String.eqb s "ZGOLD" then
    e <- exampleFallback items s ;; Ok (Some e)
  else
    match find_item s items with
    | Some _ => e <- exampleFallback items s ;; Ok (Some e)
    | None => Ok None
    end.

Definition exampleSymbols : list string := ["ZGOLD"; "GLDTR"; "ISGLK"].

Fixpoint somes {A} (l : list (option A)) : list A :=
  match l with
  | [] => []
  | Some a :: t => a :: somes t
  | None :: t => somes t
  end.

Record TableView : Type := {
  tv_spot : option jsnum;
  tv_rows : list Row;
  tv_bestSymbol : string;
  tv_bestBaseValue : jsnum;
  tv_bestPrice : jsnum;
  tv_bestPerGramPrice : jsnum;
  tv_others : list OtherEtf;
  tv_formula : string;
  tv_examples : list Example
}.

Inductive Comparison : Type :=
| NoElement
| NoData
| Table (t : TableView).

Definition renderTable (data : Data) (bestValueEtf : BaseValueItem)
    (items : list BaseValueItem) : exc TableView :=
  let spot := js_or (spot_gram_gold_price data) JNull in
  let navColumn := hasNavData items in
  rows <- forEachIndexed (renderRow bestValueEtf navColumn) 0%nat items ;;
  bestBase <- toFixed "baseValue.toFixed" (bv_baseValue bestValueEtf) ;;
  let others := map (otherEtf bestValueEtf) (tl items) in
  examples <-
    (if truthy spot
     then mapM (exampleWithSpot items) exampleSymbols
     else mapM (exampleWithoutSpot items) exampleSymbols) ;;
  Ok {| tv_spot := if truthy spot then Some (formatPrice spot) else None;
        tv_rows := rows;
        tv_bestSymbol := symbol (bv_etf bestValueEtf);
        tv_bestBaseValue := bestBase;
        tv_bestPrice := formatPrice (current_price (bv_etf bestValueEtf));
        tv_bestPerGramPrice := formatPrice (JNumber (bv_perGramPrice bestValueEtf));
        tv_others := others;
        tv_formula := bv_formula bestValueEtf;
        tv_examples := somes examples |}.

(** The panel for a given ranking: the notice that no fund has gold backing
    data, or the table led by [etfsWithBaseValue[0]]. *)
Definition comparisonOf (data : Data) (items : list BaseValueItem) : exc Comparison :=
  match items with
  | [] => Ok NoData
  | bestValueEtf :: _ =>
      t <- renderTable data bestValueEtf items ;; Ok (Table t)
  end.

Definition renderComparison (dom : Dom) (data : Data) : exc Comparison :=
  if dom_baseValueComparison dom
  then comparisonOf data (etfsWithBaseValue data)
  else Ok NoElement.

(** ** [displayResults]: the cards *)

(** The formula box printed on the ZGOLD and GLDTR cards. *)
Inductive FormulaInfo : Type :=
| FormulaWithBacking (shownBacking : jsnum) (shownPerGram : jsnum)
| FormulaOnly.

Record Card : Type := {
  card_symbol : string;
  card_name : string;
  card_isCheapest : bool;
  (** the per-gram price in the price line, or [None] when the line
      shows the share price instead *)
  card_perGramShown : option jsnum;
  card_priceShown : option jsnum;
  card_changePositive : bool;
  card_change : jsnum;
  card_volume : option jsnum;
  card_updated : option string;
  card_backing : option jsval;
  (** difference of the back end's per-gram price to the local cheapest,
      and the back end's percentage *)
  card_priceDiff : option (jsnum * jsnum);
  card_formula : option FormulaInfo
}.

Definition tolerance : jsnum := Fin 0.0001.

(** [perGramPrice] and [isCheapest] of the card loop. *)
Definition cardPerGramPrice (etf : Etf) : jsval :=
  if truthy (gold_backing_grams etf)
  then JNumber (js_div (current_price etf) (gold_backing_grams etf))
  else JNull.

Definition isCheapest (data : Data) (etf : Etf) : bool :=
  if truthy (gold_backing_grams etf) && truthy (cheapestPerGramPrice data)
  then num_ltb (num_abs (js_sub (cardPerGramPrice etf) (cheapestPerGramPrice data)))
         tolerance
  else false.

(** The body of [data.all_etfs.forEach(etf => ...)]. *)
Definition renderCard (dom : Dom) (data : Data) (etf : Etf) : exc Card :=
  let cheapest := cheapestPerGramPrice data in
  let perGramPrice := cardPerGramPrice etf in
  let priceDiff := get_property (price_difference data) (symbol etf) in
  let priceDiffPerGram : jsval :=
    match priceDiff with
    | Some pd => if truthy (per_gram_price pd) then per_gram_price pd else JNull
    | None => JNull
    end in
  shownDiff <-
    match priceDiff with
    | Some pd =>
        if truthy priceDiffPerGram && truthy cheapest then
          shownPercent <- toFixed "priceDiff.percent.toFixed" (percent pd) ;;
          Ok (Some (formatPrice (JNumber (js_sub priceDiffPerGram cheapest)),
                    shownPercent))
        else Ok None
    | None => Ok None
    end ;;
  formula <-
    (if String.eqb (symbol etf) "ZGOLD" || String.eqb (symbol etf) "GLDTR" then
       if truthy (gold_backing_grams etf) then
         shownBacking <- toFixed "gold_backing_grams.toFixed" (gold_backing_grams etf) ;;
         Ok (Some (FormulaWithBacking shownBacking
                     (formatPrice (JNumber (js_div (current_price etf)
                                              (gold_backing_grams etf))))))
       else Ok (Some FormulaOnly)
     else Ok None) ;;
  let card :=
    {| card_symbol := symbol etf;
       card_name := name etf;
       card_isCheapest := isCheapest data etf;
       card_perGramShown :=
         if truthy perGramPrice then Some (formatPrice perGramPrice) else None;
       card_priceShown :=
         if truthy perGramPrice then None else Some (formatPrice (current_price etf));
       card_changePositive := js_ge (change_percent etf) zero;
       card_change :=
         match change_percent etf with
         | Num q => Fin q
         | _ => Fin 0
         end;
       card_volume :=
         if truthy (volume etf) then Some (ToNumber (volume etf)) else None;
       card_updated := last_updated etf;
       card_backing :=
         if truthy (gold_backing_grams etf)
         then Some (field_val (gold_backing_grams etf)) else None;
       card_priceDiff := shownDiff;
       card_formula := formula |} in
  if dom_etfList dom then Ok card else TypeError "etfList.appendChild".

(** ** [displayResults] *)

Record Rendering : Type := {
  r_recommendation : option string;
  r_comparison : Comparison;
  r_cards : list Card
}.

Definition displayResults (dom : Dom) (data : Data) : exc Rendering :=
  comparison <- renderComparison dom data ;;
  cards <- mapM (renderCard dom data) (all_etfs data) ;;
  Ok {| r_recommendation :=
          if dom_recommendation dom then Some (recommendation data) else None;
        r_comparison := comparison;
        r_cards := cards |}.

(** ** The page: [compareETFs] and the visibility helpers

    The state of the elements the script writes to.  A [hidden] flag is
    the presence of the class [hidden] in the element's class list;
    [results_block] is the inline style [display: block] that
    [displayResults] puts on [results].  [loading], [error] and [results]
    exist (see [Dom]). *)

(** What [showError] is called with: the message of the error caught. *)
Inductive ErrorCause : Type :=
| FetchFailed (message : string)
| HttpStatus (status : nat)
| InvalidJson (message : string)
| DisplayThrew (where_ : string).

Record Page : Type := {
  loading_hidden : bool;
  error_hidden : bool;
  error_text : option ErrorCause;
  results_hidden : bool;
  results_block : bool;
  page_recommendation : option string;
  page_comparison : option Comparison;
  page_cards : list Card
}.

Definition set_loading_hidden (b : bool) (p : Page) : Page :=
  {| loading_hidden := b;
     error_hidden := error_hidden p; error_text := error_text p;
     results_hidden := results_hidden p; results_block := results_block p;
     page_recommendation := page_recommendation p;
     page_comparison := page_comparison p; page_cards := page_cards p |}.

Definition set_error (hidden : bool) (text : option ErrorCause) (p : Page) : Page :=
  {| loading_hidden := loading_hidden p;
     error_hidden := hidden; error_text := text;
     results_hidden := results_hidden p; results_block := results_block p;
     page_recommendation := page_recommendation p;
     page_comparison := page_comparison p; page_cards := page_cards p |}.

Definition set_results (hidden block : bool) (p : Page) : Page :=
  {| loading_hidden := loading_hidden p;
     error_hidden := error_hidden p; error_text := error_text p;
     results_hidden := hidden; results_block := block;
     page_recommendation := page_recommendation p;
     page_comparison := page_comparison p; page_cards := page_cards p |}.

Definition set_content (rec : option string) (comparison : option Comparison)
    (cards : list Card) (p : Page) : Page :=
  {| loading_hidden := loading_hidden p;
     error_hidden := error_hidden p; error_text := error_text p;
     results_hidden := results_hidden p; results_block := results_block p;
     page_recommendation := rec;
     page_comparison := comparison; page_cards := cards |}.

Definition showLoading (p : Page) : Page := set_loading_hidden false p.
Definition hideLoading (p : Page) : Page := set_loading_hidden true p.

Definition showError (message : ErrorCause) (p : Page) : Page :=
  set_error false (Some message) p.

Definition hideError (p : Page) : Page := set_error true (error_text p) p.

Definition showResults (p : Page) : Page := set_results false (results_block p) p.
Definition hideResults (p : Page) : Page := set_results true (results_block p) p.

(** [results.classList.remove('hidden'); results.style.display = 'block'] *)
Definition makeResultsVisible (p : Page) : Page := set_results false true p.

(** The card loop as it runs: each card is appended to the list as soon as
    it is built, and a throw leaves the cards appended so far. *)
Fixpoint appendCards (dom : Dom) (data : Data) (funds : list Etf)
    (shown : list Card) : list Card * option string :=
  match funds with
  | [] => (shown, None)
  | etf :: rest =>
      match renderCard dom data etf with
      | Ok card => appendCards dom data rest (shown ++ [card])
      | TypeError w => (shown, Some w)
      end
  end.

(** [displayResults] as it acts on the page, in the order of its
    statements; the second component is the exception it ends with. *)
Definition displayResultsOn (dom : Dom) (data : Data) (p : Page)
    : Page * option string :=
  let p1 :=
    if dom_recommendation dom
    then set_content (Some (recommendation data)) (page_comparison p) (page_cards p) p
    else p in
  let p2 :=
    if dom_etfList dom
    then set_content (page_recommendation p1) (page_comparison p1) [] p1
    else p1 in
  let p3 := makeResultsVisible p2 in
  match renderComparison dom data with
  | TypeError w => (p3, Some w)
  | Ok comparison =>
      let p4 :=
        if dom_baseValueComparison dom
        then set_content (page_recommendation p3) (Some comparison) (page_cards p3) p3
        else p3 in
      let p5 := makeResultsVisible (makeResultsVisible p4) in
      let (cards, thrown) := appendCards dom data (all_etfs data) (page_cards p5) in
      let p6 := set_content (page_recommendation p5) (page_comparison p5) cards p5 in
      match thrown with
      | Some w => (p6, Some w)
      | None => (showResults p6, None)
      end
  end.

(** How the [fetch] of [/gold-etf/compare] ends: it rejects, or it gives
    a response with a status whose body parses to the data or does not. *)
Inductive FetchOutcome : Type :=
| NetworkError (message : string)
| Response (status : nat) (body : string + Data).

(** [response.ok]: a status from 200 to 299. *)
Definition response_ok (status : nat) : bool :=
  Nat.leb 200 status && Nat.leb status 299.

(** [compareETFs], from the page before the call to the page once the
    promise settles. *)
Definition compareETFs (dom : Dom) (outcome : FetchOutcome) (p : Page) : Page :=
  let p0 := hideResults (hideError (showLoading p)) in
  let after :=
    match outcome with
    | NetworkError message => showError (FetchFailed message) p0
    | Response status body =>
        if response_ok status then
          match body with
          | inl message => showError (InvalidJson message) p0
          | inr data =>
              match displayResultsOn dom data p0 with
              | (p1, Some w) => showError (DisplayThrew w) p1
              | (p1, None) => p1
              end
          end
        else showError (HttpStatus status) p0
    end in
  hideLoading after.

(** ** What the rendering marks and shows *)

Definition cheapestCards (r : Rendering) : list string :=
  map card_symbol (filter card_isCheapest (r_cards r)).

Definition bestRows (c : Comparison) : list string :=
  match c with
  | Table t => map row_symbol (filter row_isBest (tv_rows t))
  | _ => []
  end.

Definition rowOrder (c : Comparison) : list string :=
  match c with
  | Table t => map row_symbol (tv_rows t)
  | _ => []
  end.

(** Every place where a per-gram price is printed, with the symbol it is
    printed for: table rows, the best-fund box and the list under it, the
    worked examples, the cards and their formula boxes. *)
Definition tablePerGramSites (t : TableView) : list (string * jsnum) :=
  map (fun r => (row_symbol r, row_perGramPrice r)) (tv_rows t)
  ++ [(tv_bestSymbol t, tv_bestPerGramPrice t)]
  ++ map (fun o => (other_symbol o, other_perGramPrice o)) (tv_others t)
  ++ map (fun e => (ex_symbol e, ex_perGramPrice e)) (tv_examples t).

Definition cardPerGramSites (c : Card) : list (string * jsnum) :=
  match card_perGramShown c with
  | Some v => [(card_symbol c, v)]
  | None => []
  end
  ++ match card_formula c with
     | Some (FormulaWithBacking _ v) => [(card_symbol c, v)]
     | _ => []
     end.

Definition perGramSites (r : Rendering) : list (string * jsnum) :=
  match r_comparison r with
  | Table t => tablePerGramSites t
  | _ => []
  end
  ++ flat_map cardPerGramSites (r_cards r).

(** ** Sample responses *)

Definition fund (s : string) (price backing : field) : Etf :=
  {| symbol := s; name := s;
     current_price := price; gold_backing_grams := backing;
     nav_price := Absent; change_percent := Absent; volume := Absent;
     stopaj_rate := Absent; expense_ratio := Absent; last_updated := None |}.

Definition response (funds : list Etf) (diffs : list (string * PriceDiff))
    (spot : field) : Data :=
  {| recommendation := ""; all_etfs := funds;
     price_difference := diffs; spot_gram_gold_price := spot |}.

(** Two funds that tie at 50 per gram: 100 / 2 and 90 / 1.8. *)
Definition sample_tie : Data :=
  response [fund "A" (Num 100) (Num 2); fund "B" (Num 90) (Num 1.8)] [] (Num 50).

(** A at 120 / 2.5 = 48 per gram listed before B at 80 / 2 = 40 per gram. *)
Definition sample_nav : Data :=
  response [fund "A" (Num 120) (Num 2.5); fund "B" (Num 80) (Num 2)] [] (Num 40).

(** Three ranked funds: A with a NAV above 0, B without a NAV, C with a
    NAV of 0. *)
Definition fund_with_nav (s : string) (price backing nav : field) : Etf :=
  {| symbol := s; name := s;
     current_price := price; gold_backing_grams := backing;
     nav_price := nav; change_percent := Absent; volume := Absent;
     stopaj_rate := Absent; expense_ratio := Absent; last_updated := None |}.

Definition sample_with_nav : Data :=
  response [fund_with_nav "A" (Num 120) (Num 2.5) (Num 118);
            fund "B" (Num 80) (Num 2);
            fund_with_nav "C" (Num 90) (Num 2) (Num 0)] [] (Num 40).

(** A fund with a negative backing next to a regular one. *)
Definition sample_negative_backing : Data :=
  response [fund "A" (Num 100) (Num (-2)); fund "B" (Num 100) (Num 2)] [] (Num 50).

(** A fund with a negative backing alone. *)
Definition sample_only_negative : Data :=
  response [fund "A" (Num 100) (Num (-2))] [] (Num 50).

(** No spot price, and a ZGOLD fund with a negative backing. *)
Definition sample_unranked_zgold : Data :=
  response [fund "ZGOLD" (Num 100) (Num (-2)); fund "GLDTR" (Num 100) (Num 2)]
    [] Absent.

(** A price-difference entry that lacks its [percent] field. *)
Definition sample_missing_percent : Data :=
  response [fund "A" (Num 100) (Num 2)]
    [("A", {| per_gram_price := Num 50; percent := Absent |})] (Num 50).

(** ** Vocabulary of the properties *)

(** The rational of a finite number. *)
Definition num_q (n : jsnum) : Q :=
  match n with
  | Fin q => q
  | _ => 0
  end.

(** Sorting by a numeric key: the comparator [(a, b) => key(a) - key(b)]. *)
Section SortSpec.
Context {A : Type} (key : A -> jsnum).

Definition by_key (a b : A) : jsnum := num_sub (key a) (key b).
Definition finite_key (a : A) : Prop := num_is_finite (key a) = true.
Definition kq (a : A) : Q := num_q (key a).
Definition key_le (a b : A) : Prop := kq a <= kq b.
Definition same_key (q : Q) (a : A) : bool := Qeq_bool (kq a) q.

(** What the language asks of [sort]: ascending, a rearrangement of the
    input, and elements that compare equal keep their input order. *)
Record stable_sort_of (l l' : list A) : Prop := {
  sso_sorted : StronglySorted key_le l';
  sso_perm : Permutation l l';
  sso_stable : forall q, filter (same_key q) l' = filter (same_key q) l
}.
End SortSpec.

(** The percent difference of a row: [(p - cheapest) / cheapest * 100]. *)
Definition diffPercentOf (perGramPrice cheapest : jsnum) : jsnum :=
  num_mul (num_div (num_sub perGramPrice cheapest) cheapest) hundred.

(** The item's backing is a number, so [toFixed] can be called on it. *)
Definition numeric_base (item : BaseValueItem) : Prop :=
  exists n, bv_baseValue item = JNumber n.

(** Every fund that passes the filter of the card ranking (a truthy
    backing) also passes the filter of the table ranking. *)
Definition filters_agree (data : Data) : Prop :=
  forall etf, In etf (all_etfs data) ->
    truthy (gold_backing_grams etf) = true -> has_price_and_backing etf = true.

(** The funds of the response that the table ranks, in input order. *)
Definition ranked_funds (data : Data) : list Etf :=
  filter has_price_and_backing (all_etfs data).

(** The per-gram price in a card's formula box is the fund's quotient. *)
Definition formula_shows (etf : Etf) (o : option FormulaInfo) : Prop :=
  match o with
  | Some (FormulaWithBacking _ v) => v = perGram etf
  | _ => True
  end.

(** A place shows the per-gram price of a fund of the response when the
    number is current_price / gold_backing_grams of a fund with that symbol. *)
Definition site_follows_formula (data : Data) (site : string * jsnum) : Prop :=
  exists etf, In etf (all_etfs data)
    /\ symbol etf = fst site /\ snd site = perGram etf.

(** The ZGOLD line of the worked examples when there is no spot price and
    no ZGOLD fund is ranked: it is printed all the same, with 0. *)
Definition zgold_placeholder (data : Data) (site : string * jsnum) : Prop :=
  site = ("ZGOLD", Fin 0)
  /\ truthy (spotGramGoldPrice data) = false
  /\ find_item "ZGOLD" (etfsWithBaseValue data) = None.

(** A sample page: everything hidden, nothing written yet. *)
Definition blank_page : Page :=
  {| loading_hidden := true; error_hidden := true; error_text := None;
     results_hidden := true; results_block := false;
     page_recommendation := None; page_comparison := None; page_cards := [] |}.

(** The guard of a card's difference line: the entry of the fund exists,
    its per-gram price is truthy and so is the cheapest per-gram price. *)
Definition diff_line_guard (data : Data) (etf : Etf) : bool :=
  match get_property (price_difference data) (symbol etf) with
  | Some pd => truthy (per_gram_price pd) && truthy (cheapestPerGramPrice data)
  | None => false
  end.

(** The fund's card can be built and appended: the list element exists
    and, when the difference line is printed, the entry has a numeric
    [percent]. *)
Definition card_can_render (dom : Dom) (data : Data) (etf : Etf) : Prop :=
  dom_etfList dom = true
  /\ (diff_line_guard data etf = true ->
      exists pd q, get_property (price_difference data) (symbol etf) = Some pd
                   /\ percent pd = Num q).

Definition finite (n : jsnum) : Prop := num_is_finite n = true.

Definition opt_list {A} (o : option A) : list A :=
  match o with
  | Some a => [a]
  | None => []
  end.

(** The numeric field as [v !== null && v !== undefined ? v.toFixed(2)]
    shows it. *)
Definition shown_percent (f : field) : option jsnum :=
  match f with
  | Num q => Some (Fin q)
  | _ => None
  end.

(** A ranked fund is listed under a symbol of the worked examples. *)
Definition ranked_symbol (data : Data) (s : string) : bool :=
  existsb (has_symbol s) (ranked_funds data).

(** An entry of the list under the best fund repeats a row of the table. *)
Definition summary_entry_matches (row : Row) (o : OtherEtf) : Prop :=
  other_symbol o = row_symbol row
  /\ other_perGramPrice o = row_perGramPrice row
  /\ row_diffShown row = Some (other_diffAbsolute o, other_diffPercent o).

(** The NAV cell of the row of a fund: absent when no ranked fund has a NAV
    above 0, else N/A for a falsy NAV and the NAV otherwise. *)
Definition nav_cell_of (data : Data) (etf : Etf) (row : Row) : Prop :=
  row_symbol row = symbol etf
  /\ row_navUpdated row = has_nav etf
  /\ match row_nav row with
     | None => existsb has_nav (ranked_funds data) = false
     | Some None =>
         existsb has_nav (ranked_funds data) = true /\ truthy (nav_price etf) = false
     | Some (Some cell) =>
         existsb has_nav (ranked_funds data) = true
         /\ truthy (nav_price etf) = true
         /\ nav_shown cell = ToNumber (nav_price etf)
     end.

(** The comparator of both rankings, read on the funds themselves. *)
Definition byFundPerGram (a b : Etf) : jsnum := num_sub (perGram a) (perGram b).

(** What [displayResults] writes into the comparison panel. *)
Definition shown_comparison (dom : Dom) (data : Data) : Comparison :=
  match renderComparison dom data with
  | Ok c => c
  | TypeError _ => NoElement
  end.

(** The page [displayResults] leaves, whether or not a card throws. *)
Definition displayed (dom : Dom) (data : Data) (p : Page) : Page :=
  {| loading_hidden := loading_hidden p;
     error_hidden := error_hidden p;
     error_text := error_text p;
     results_hidden := false;
     results_block := true;
     page_recommendation :=
       if dom_recommendation dom then Some (recommendation data)
       else page_recommendation p;
     page_comparison :=
       if dom_baseValueComparison dom then Some (shown_comparison dom data)
       else page_comparison p;
     page_cards :=
       (if dom_etfList dom then [] else page_cards p)
       ++ fst (appendCards dom data (all_etfs data) []) |}.

(** Whether the run ends in the [catch] block. *)
Definition run_fails (dom : Dom) (outcome : FetchOutcome) : bool :=
  match outcome with
  | NetworkError _ => true
  | Response status body =>
      if response_ok status then
        match body with
        | inl _ => true
        | inr data =>
            match displayResults dom data with
            | Ok _ => false
            | TypeError _ => true
            end
        end
      else true
  end.

(** * The ranking in double precision *)

Module Doubles.
Local Open Scope float_scope.

(** The part of [displayResults] that computes with numbers, on binary64
    values: the two rankings, the numeric columns of the table rows and
    the cheapest mark of the cards.  A decimal literal stands for the
    double closest to it, as [JSON.parse] and the script read it.  The
    other columns, the text and the exceptions are those of the
    embedding above. *)

(** ** Numbers and values *)

Inductive jsval : Type :=
  | JUndefined
  | JNull
  | JNumber (x : float).

(** A numeric property of a JSON object: key missing, [null], or the
    double the literal is read as (a literal out of range reads as an
    infinity). *)
Inductive field : Type :=
  | Absent
  | Null
  | Num (x : float).

Definition field_val (f : field) : jsval :=
  match f with
  | Absent => JUndefined
  | Null => JNull
  | Num x => JNumber x
  end.

Definition ToNumber (v : jsval) : float :=
  match v with
  | JUndefined => nan
  | JNull => 0
  | JNumber x => x
  end.

(** [!Number.isNaN(x)] and [Number.isFinite(x)]. *)
Definition not_nan (x : float) : bool := x =? x.

Definition isFinite (x : float) : bool := abs x <? infinity.

(** A number is truthy unless it is [0], [-0] or [NaN]. *)
Definition num_truthy (x : float) : bool := negb (x =? 0) && not_nan x.

Definition truthy (v : jsval) : bool :=
  match v with
  | JNumber x => num_truthy x
  | _ => false
  end.

Definition js_div (a b : jsval) : float := ToNumber a / ToNumber b.
Definition js_sub (a b : jsval) : float := ToNumber a - ToNumber b.
Definition js_gt (a b : jsval) : bool := ToNumber b <? ToNumber a.

Record Etf : Type := {
  symbol : string;
  current_price : field;
  gold_backing_grams : field
}.

Record Data : Type := {
  all_etfs : list Etf
}.

(** ** [Array.prototype.sort] with a comparator

    Computed by stable insertion, as in the first embedding: [b] is
    placed before [a] exactly when [cmp a b > 0], and a comparator value
    of [NaN] counts as [+0].  When a key is [NaN] the comparator is not
    consistent and the order is left to the engine: the properties that
    name the order are stated for keys that are not [NaN]. *)

Section Sort.
Context {A : Type} (cmp : A -> A -> float).

Definition comes_after (a b : A) : bool := 0 <? cmp a b.

Fixpoint sort_insert (x : A) (l : list A) : list A :=
  match l with
  | [] => [x]
  | h :: t => if comes_after x h then h :: sort_insert x t else x :: h :: t
  end.

Definition js_sort (l : list A) : list A := fold_right sort_insert [] l.
End Sort.

(** ** [displayResults]: ranking used for the cards *)

Record PerGramItem : Type := {
  pg_etf : Etf;
  pg_perGramPrice : float
}.

Definition perGram (etf : Etf) : float :=
  js_div (field_val (current_price etf)) (field_val (gold_backing_grams etf)).

Definition byPerGram (a b : PerGramItem) : float :=
  pg_perGramPrice a - pg_perGramPrice b.

Definition has_backing (etf : Etf) : bool :=
  truthy (field_val (gold_backing_grams etf)).

Definition etfsWithPerGram (data : Data) : list PerGramItem :=
  js_sort byPerGram
    (map (fun etf => {| pg_etf := etf; pg_perGramPrice := perGram etf |})
       (filter has_backing (all_etfs data))).

Definition cheapestPerGramPrice (data : Data) : jsval :=
  match etfsWithPerGram data with
  | [] => JNull
  | first :: _ => JNumber (pg_perGramPrice first)
  end.

Definition cheapestEtfSymbol (data : Data) : option string :=
  match etfsWithPerGram data with
  | [] => None
  | first :: _ => Some (symbol (pg_etf first))
  end.

(** ** [displayResults]: ranking used for the comparison table *)

Record BaseValueItem : Type := {
  bv_etf : Etf;
  bv_baseValue : jsval;
  bv_perGramPrice : float
}.

Definition byBaseValue (a b : BaseValueItem) : float :=
  bv_perGramPrice a - bv_perGramPrice b.

Definition has_price_and_backing (etf : Etf) : bool :=
  js_gt (field_val (current_price etf)) (JNumber 0)
  && truthy (field_val (gold_backing_grams etf))
  && js_gt (field_val (gold_backing_grams etf)) (JNumber 0).

Definition base_value_item (etf : Etf) : BaseValueItem :=
  let goldBacking := field_val (gold_backing_grams etf) in
  let perGramPrice := js_div (field_val (current_price etf)) goldBacking in
  {| bv_etf := etf;
     bv_baseValue := goldBacking;
     bv_perGramPrice := perGramPrice |}.

Definition qualifying (data : Data) : list BaseValueItem :=
  map base_value_item (filter has_price_and_backing (all_etfs data)).

Definition etfsWithBaseValue (data : Data) : list BaseValueItem :=
  js_sort byBaseValue (qualifying data).

(** ** [displayResults]: the rows of the comparison table *)

Record Row : Type := {
  row_symbol : string;
  row_isBest : bool;
  row_perGramPrice : float;
  row_priceDiffPercent : float;
  row_priceDiffAbsolute : float
}.

Definition renderRow (bestValueEtf : BaseValueItem) (index : nat)
    (item : BaseValueItem) : Row :=
  let isBest := Nat.eqb index 0 in
  let etf := bv_etf item in
  let perGramPrice :=
    js_div (field_val (current_price etf)) (field_val (gold_backing_grams etf)) in
  let cheapestPerGramPrice := bv_perGramPrice bestValueEtf in
  {| row_symbol := symbol etf;
     row_isBest := isBest;
     row_perGramPrice := perGramPrice;
     row_priceDiffPercent :=
       if isBest then 0
       else (perGramPrice - cheapestPerGramPrice) / cheapestPerGramPrice * 100;
     row_priceDiffAbsolute :=
       if isBest then 0 else perGramPrice - cheapestPerGramPrice |}.

Fixpoint forEachIndexed {A B : Type} (f : nat -> A -> B) (index : nat)
    (l : list A) : list B :=
  match l with
  | [] => []
  | x :: rest => f index x :: forEachIndexed f (S index) rest
  end.

(** The rows written for a ranking; [bestValueEtf] is its first item. *)
Definition rowsOf (ranking : list BaseValueItem) : list Row :=
  match ranking with
  | [] => []
  | bestValueEtf :: _ => forEachIndexed (renderRow bestValueEtf) 0 ranking
  end.

Definition tableRows (data : Data) : list Row :=
  rowsOf (etfsWithBaseValue data).

(** ** [displayResults]: the cards *)

Record Card : Type := {
  card_symbol : string;
  card_perGramPrice : jsval;
  card_isCheapest : bool
}.

Definition tolerance : float := 0.0001.

Definition cardPerGramPrice (etf : Etf) : jsval :=
  if truthy (field_val (gold_backing_grams etf))
  then JNumber (js_div (field_val (current_price etf))
                  (field_val (gold_backing_grams etf)))
  else JNull.

Definition isCheapest (data : Data) (etf : Etf) : bool :=
  if truthy (field_val (gold_backing_grams etf))
     && truthy (cheapestPerGramPrice data)
  then abs (js_sub (cardPerGramPrice etf) (cheapestPerGramPrice data))
         <? tolerance
  else false.

Definition renderCard (data : Data) (etf : Etf) : Card :=
  {| card_symbol := symbol etf;
     card_perGramPrice := cardPerGramPrice etf;
     card_isCheapest := isCheapest data etf |}.

Definition cards (data : Data) : list Card :=
  map (renderCard data) (all_etfs data).

(** ** What the rendering marks and shows *)

Definition cheapestCards (data : Data) : list string :=
  map card_symbol (filter card_isCheapest (cards data)).

Definition bestRows (data : Data) : list string :=
  map row_symbol (filter row_isBest (tableRows data)).

Definition rowOrder (data : Data) : list string :=
  map row_symbol (tableRows data).


(** ** Vocabulary of the properties *)

(** The order of binary64 values, read on their sign, exponent and
    mantissa: a value that is not [NaN] is sent to a triple of integers
    ordered lexicographically. *)
Definition sf_key (a : spec_float) : Z * Z * Z :=
  match a with
  | S754_zero _ => (0, 0, 0)
  | S754_infinity false => (2, 0, 0)
  | S754_infinity true => (-2, 0, 0)
  | S754_nan => (0, 0, 0)
  | S754_finite false m e => (1, e, Zpos m)
  | S754_finite true m e => (-1, - e, Zneg m)
  end%Z.

Definition lex3 (k1 k2 : Z * Z * Z) : comparison :=
  match k1, k2 with
  | (c1, e1, m1), (c2, e2, m2) =>
      match Z.compare c1 c2 with
      | Eq => match Z.compare e1 e2 with
              | Eq => Z.compare m1 m2
              | r => r
              end
      | r => r
      end
  end.

Definition sf_nonnan (a : spec_float) : bool :=
  match a with S754_nan => false | _ => true end.

Definition lex_le (k1 k2 : Z * Z * Z) : Prop :=
  match k1, k2 with
  | (c1, e1, m1), (c2, e2, m2) =>
      (c1 < c2 \/ (c1 = c2 /\ (e1 < e2 \/ (e1 = e2 /\ m1 <= m2))))%Z
  end.

Definition sf_signed (s : bool) (a : spec_float) : bool :=
  match a with
  | S754_zero s' | S754_infinity s' | S754_finite s' _ _ => Bool.eqb s s'
  | S754_nan => false
  end.

Definition sf_is_zero (a : spec_float) : bool :=
  match a with S754_zero _ => true | _ => false end.

(** Sorting by a numeric key: the comparator [(a, b) => key(a) - key(b)]. *)
Section SortSpec.
Context {A : Type} (key : A -> float).

Definition by_key (a b : A) : float := key a - key b.
Definition key_defined (a : A) : Prop := not_nan (key a) = true.
Definition key_le (a b : A) : Prop := (key a <=? key b) = true.
Definition same_key (x : float) (a : A) : bool := key a =? x.

(** What the language asks of [sort]: ascending, a rearrangement of the
    input, and elements that compare equal keep their input order. *)
Record stable_sort_of (l l' : list A) : Prop := {
  sso_sorted : StronglySorted key_le l';
  sso_perm : Permutation l l';
  sso_stable : forall x, filter (same_key x) l' = filter (same_key x) l
}.
End SortSpec.

(** What the language asks of [sort], read on the comparator itself: the
    result is a rearrangement of the input in which no element is placed
    before one it must come after ([cmp a b > 0]), and elements for which
    the comparator answers neither above nor below 0 keep their input
    order. *)
Section SortContract.
Context {A : Type} (cmp : A -> A -> float).

Definition ties (x y : A) : bool := negb (0 <? cmp y x) && negb (cmp y x <? 0).

Record sorted_by (l l' : list A) : Prop := {
  sb_perm : Permutation l l';
  sb_sorted : StronglySorted (fun a b => comes_after cmp a b = false) l';
  sb_stable : forall x, In x l -> filter (ties x) l' = filter (ties x) l
}.
End SortContract.

(** The funds the table ranks, and those the card ranking keeps, in
    input order. *)
Definition ranked_funds (data : Data) : list Etf :=
  filter has_price_and_backing (all_etfs data).

Definition backed_funds (data : Data) : list Etf :=
  filter has_backing (all_etfs data).

(** No per-gram price of these funds is [NaN].  For a fund with a price
    and a backing above 0 the quotient is [NaN] only when both are
    [Infinity]. *)
Definition keys_defined (funds : list Etf) : bool :=
  forallb (fun etf => not_nan (perGram etf)) funds.

(** The fund a reader of the sequence would call the cheapest: a later
    fund replaces an earlier one only when it is strictly cheaper. *)
Fixpoint first_cheapest (funds : list Etf) : option Etf :=
  match funds with
  | [] => None
  | f :: rest =>
      match first_cheapest rest with
      | Some m => if perGram m <? perGram f then Some m else Some f
      | None => Some f
      end
  end.

(** [f] occurs in [funds] with every earlier fund strictly more expensive
    per gram and no later fund cheaper. *)
Definition is_first_lowest (funds : list Etf) (f : Etf) : Prop :=
  exists l1 l2,
    funds = l1 ++ f :: l2
    /\ Forall (fun y => (perGram f <? perGram y) = true) l1
    /\ Forall (fun y => (perGram f <=? perGram y) = true) l2.

(** The card test at a given cheapest price: a backing, and a per-gram
    price closer than the tolerance to it. *)
Definition within_tolerance (cheapest : float) (etf : Etf) : bool :=
  has_backing etf && (abs (perGram etf - cheapest) <? tolerance).



(** Every fund with a backing has a per-gram price that is a number and
    is not below 0. *)
Definition backed_nonneg (data : Data) : bool :=
  forallb (fun etf => 0 <=? perGram etf) (backed_funds data).

(** The fund's price is [null] or 0. *)
Definition free_fund (etf : Etf) : bool :=
  match current_price etf with
  | Absent => false
  | Null => true
  | Num p => p =? 0
  end.

Definition has_free_fund (data : Data) : bool :=
  existsb free_fund (backed_funds data).

(** ** Sample responses *)

Definition fund (s : string) (price backing : float) : Etf :=
  {| symbol := s; current_price := Num price; gold_backing_grams := Num backing |}.

Definition response (funds : list Etf) : Data := {| all_etfs := funds |}.

(** Two funds that tie at 50 per gram: 100 / 2 and 90 / 1.8. *)
Definition sample_tie : Data :=
  response [fund "A" 100 2; fund "B" 90 1.8].


(** Two quotients that differ as rationals and round to the same double. *)
Definition sample_rounded_tie : Data :=
  response [fund "A" 146.21 0.04986120299828806;
            fund "B" 139.08 0.04742969778402232].

(** 3 / 1 against 0.3 / 0.1, which is 2.9999999999999996 in doubles. *)
Definition sample_rounded_order : Data :=
  response [fund "A" 3 1; fund "B" 0.3 0.1].




(** A fund priced at 0 next to a regular one. *)
Definition sample_free_fund : Data :=
  response [fund "A" 0 2; fund "B" 100 2].

End Doubles.

(** * Properties *)

(** ** Comparisons on rationals *)

Lemma Qeqb0_iff (q : Q) : Qeqb0 q = true <-> q == 0.
Proof. unfold Qeqb0. apply Qeq_bool_iff. Qed.

Lemma Qeqb0_false_iff (q : Q) : Qeqb0 q = false <-> ~ q == 0.
Proof. rewrite <- not_true_iff_false, Qeqb0_iff. tauto. Qed.

Lemma Qlt_bool_iff (x y : Q) : negb (Qle_bool y x) = true <-> x < y.
Proof.
  rewrite negb_true_iff, <- not_true_iff_false, Qle_bool_iff.
  split; intro H; [apply Qnot_le_lt | apply Qlt_not_le]; exact H.
Qed.

(** ** The sort: a stable sorted permutation, and the only one *)

Section SortTheory.
Context {A : Type} (key : A -> jsnum).

Lemma comes_after_iff (a b : A) :
  finite_key key a -> finite_key key b ->
  (comes_after (by_key key) a b = true <-> kq key b < kq key a).
Proof.
  unfold finite_key, comes_after, by_key, kq.
  destruct (key a) as [| | |x]; try discriminate.
  destruct (key b) as [| | |y]; try discriminate.
  intros _ _. simpl. rewrite Qlt_bool_iff. split; intro H; lra.
Qed.

Lemma sort_insert_perm (x : A) (l : list A) :
  Permutation (x :: l) (sort_insert (by_key key) x l).
Proof.
  induction l as [|h t IH]; simpl.
  - apply Permutation_refl.
  - destruct (comes_after (by_key key) x h).
    + eapply perm_trans; [apply perm_swap | apply perm_skip, IH].
    + apply Permutation_refl.
Qed.

Lemma js_sort_perm (l : list A) : Permutation l (js_sort (by_key key) l).
Proof.
  induction l as [|x t IH]; simpl.
  - constructor.
  - eapply perm_trans; [apply perm_skip, IH | apply sort_insert_perm].
Qed.

Lemma sort_insert_sorted (x : A) (l : list A) :
  finite_key key x -> Forall (finite_key key) l ->
  StronglySorted (key_le key) l ->
  StronglySorted (key_le key) (sort_insert (by_key key) x l).
Proof.
  intros Hx Hl Hs. induction Hs as [|h t Hs IH Hh]; simpl.
  - repeat constructor.
  - inversion Hl as [|? ? Hfh Hft]; subst.
    destruct (comes_after (by_key key) x h) eqn:E.
    + apply comes_after_iff in E; trivial.
      constructor; [apply IH; assumption|].
      eapply Permutation_Forall; [apply sort_insert_perm|].
      constructor; [unfold key_le; lra | exact Hh].
    + assert (Hxh : key_le key x h).
      { unfold key_le. apply Qnot_lt_le. intro Hlt.
        apply (comes_after_iff x h) in Hlt; trivial. congruence. }
      constructor; [constructor; assumption|].
      constructor; [exact Hxh|].
      eapply Forall_impl; [|exact Hh].
      intros y Hy. unfold key_le in *. lra.
Qed.

Lemma sort_insert_stable (x : A) (l : list A) (q : Q) :
  finite_key key x -> Forall (finite_key key) l ->
  filter (same_key key q) (sort_insert (by_key key) x l)
  = filter (same_key key q) (x :: l).
Proof.
  intros Hx Hl. induction Hl as [|h t Hh Ht IH]; [reflexivity|].
  simpl sort_insert. destruct (comes_after (by_key key) x h) eqn:E; [|reflexivity].
  apply comes_after_iff in E; trivial.
  simpl in *. rewrite IH.
  destruct (same_key key q h) eqn:Eh; [|reflexivity].
  destruct (same_key key q x) eqn:Ex; [|reflexivity].
  unfold same_key in *. apply Qeq_bool_iff in Eh, Ex. lra.
Qed.

Lemma js_sort_finite (l : list A) :
  Forall (finite_key key) l -> Forall (finite_key key) (js_sort (by_key key) l).
Proof. intro H. eapply Permutation_Forall; [apply js_sort_perm | exact H]. Qed.

(** On finite keys the insertion sort meets the specification. *)
Lemma js_sort_stable_sort (l : list A) :
  Forall (finite_key key) l -> stable_sort_of key l (js_sort (by_key key) l).
Proof.
  intro Hl. split.
  - induction Hl as [|x t Hx Ht IH]; simpl; [constructor|].
    apply sort_insert_sorted; auto using js_sort_finite.
  - apply js_sort_perm.
  - intro q. induction Hl as [|x t Hx Ht IH]; simpl; [reflexivity|].
    rewrite sort_insert_stable by auto using js_sort_finite.
    simpl. rewrite IH. reflexivity.
Qed.

End SortTheory.

(** ** The funds ranked in the table *)

Lemma js_gt_zero_inv (f : field) :
  js_gt f zero = true -> exists q, f = Num q /\ 0 < q.
Proof.
  destruct f as [| |q]; simpl; try discriminate.
  unfold js_gt; simpl. rewrite Qlt_bool_iff. eauto.
Qed.

Lemma js_gt_zero_intro (q : Q) : 0 < q -> js_gt (Num q) zero = true.
Proof. intro H. unfold js_gt; simpl. apply Qlt_bool_iff, H. Qed.

Lemma has_price_and_backing_inv (etf : Etf) :
  has_price_and_backing etf = true ->
  exists p g, current_price etf = Num p /\ gold_backing_grams etf = Num g
              /\ 0 < p /\ 0 < g.
Proof.
  unfold has_price_and_backing. rewrite !andb_true_iff.
  intros [[Hp _] Hg].
  apply js_gt_zero_inv in Hp as (p & Ep & Hp).
  apply js_gt_zero_inv in Hg as (g & Eg & Hg).
  exists p, g. auto.
Qed.

Lemma num_div_pos (p g : Q) : 0 < g -> num_div (Fin p) (Fin g) = Fin (p / g).
Proof.
  intro Hg. simpl.
  destruct (Qeqb0 g) eqn:E; [|reflexivity].
  apply Qeqb0_iff in E. lra.
Qed.

Lemma Qdiv_pos (p g : Q) : 0 < p -> 0 < g -> 0 < p / g.
Proof.
  intros Hp Hg. unfold Qdiv. apply Qmult_lt_0_compat; [exact Hp|].
  apply Qinv_lt_0_compat, Hg.
Qed.

(** A ranked item comes from a fund of the response with a positive price
    and a positive backing; its per-gram price is their quotient. *)
Lemma qualifying_inv (data : Data) (item : BaseValueItem) :
  In item (qualifying data) ->
  exists etf p g,
    item = base_value_item etf /\ In etf (all_etfs data)
    /\ current_price etf = Num p /\ gold_backing_grams etf = Num g
    /\ 0 < p /\ 0 < g
    /\ bv_perGramPrice item = Fin (p / g)
    /\ bv_baseValue item = JNumber (Fin g).
Proof.
  unfold qualifying. rewrite in_map_iff.
  intros (etf & <- & Hin). apply filter_In in Hin as [Hin Hq].
  destruct (has_price_and_backing_inv etf Hq) as (p & g & Ep & Eg & Hp & Hg).
  exists etf, p, g. repeat split; trivial.
  - simpl. rewrite Ep, Eg. apply num_div_pos, Hg.
  - simpl. rewrite Eg. reflexivity.
Qed.

Lemma qualifying_finite (data : Data) :
  Forall (finite_key bv_perGramPrice) (qualifying data).
Proof.
  apply Forall_forall. intros item Hin.
  destruct (qualifying_inv data item Hin) as (? & p & g & _ & _ & _ & _ & _ & _ & E & _).
  unfold finite_key. rewrite E. reflexivity.
Qed.

Lemma etfsWithBaseValue_stable_sort (data : Data) :
  stable_sort_of bv_perGramPrice (qualifying data) (etfsWithBaseValue data).
Proof. apply (js_sort_stable_sort bv_perGramPrice), qualifying_finite. Qed.

Lemma etfsWithBaseValue_In (data : Data) (item : BaseValueItem) :
  In item (etfsWithBaseValue data) <-> In item (qualifying data).
Proof.
  pose proof (sso_perm _ _ _ (etfsWithBaseValue_stable_sort data)) as P.
  split; intro H.
  - eapply Permutation_in; [apply Permutation_sym, P | exact H].
  - eapply Permutation_in; [apply P | exact H].
Qed.

Lemma ranked_inv (data : Data) (item : BaseValueItem) :
  In item (etfsWithBaseValue data) ->
  exists etf p g,
    item = base_value_item etf /\ In etf (all_etfs data)
    /\ current_price etf = Num p /\ gold_backing_grams etf = Num g
    /\ 0 < p /\ 0 < g
    /\ bv_perGramPrice item = Fin (p / g)
    /\ bv_baseValue item = JNumber (Fin g).
Proof. intro H. apply qualifying_inv, etfsWithBaseValue_In, H. Qed.


(** ** The table: what a row holds, and that building it cannot throw *)

Lemma forEachIndexed_inv {A B} (f : nat -> A -> exc B) (l : list A) :
  forall (i : nat) (bs : list B),
    forEachIndexed f i l = Ok bs ->
    Forall2 (fun a b => exists n, (i <= n)%nat /\ f n a = Ok b) l bs.
Proof.
  induction l as [|a t IH]; simpl; intros i bs H.
  - injection H as <-. constructor.
  - destruct (f i a) as [b|] eqn:Ea; simpl in H; [|discriminate].
    destruct (forEachIndexed f (S i) t) as [bs'|] eqn:Et; simpl in H; [|discriminate].
    injection H as <-. constructor.
    + exists i. split; [lia | exact Ea].
    + eapply Forall2_impl; [|apply (IH _ _ Et)].
      intros a' b' (n & Hn & E). exists n. split; [lia | exact E].
Qed.

Lemma forEachIndexed_head {A B} (f : nat -> A -> exc B) (i : nat) (a : A)
    (t : list A) (bs : list B) :
  forEachIndexed f i (a :: t) = Ok bs ->
  exists b bs', bs = b :: bs' /\ f i a = Ok b
    /\ Forall2 (fun a b => exists n, (S i <= n)%nat /\ f n a = Ok b) t bs'.
Proof.
  simpl. destruct (f i a) as [b|] eqn:Ea; simpl; [|discriminate].
  destruct (forEachIndexed f (S i) t) as [bs'|] eqn:Et; simpl; [|discriminate].
  intro H. injection H as <-. exists b, bs'.
  repeat split; trivial. apply forEachIndexed_inv, Et.
Qed.

Lemma forEachIndexed_total {A B} (f : nat -> A -> exc B) (l : list A) :
  Forall (fun a => forall n, exists b, f n a = Ok b) l ->
  forall i, exists bs, forEachIndexed f i l = Ok bs.
Proof.
  induction 1 as [|a t Ha _ IH]; intro i; simpl.
  - eauto.
  - destruct (Ha i) as (b & ->). destruct (IH (S i)) as (bs & ->).
    simpl. eauto.
Qed.

Lemma mapM_total {A B} (f : A -> exc B) (l : list A) :
  Forall (fun a => exists b, f a = Ok b) l -> exists bs, mapM f l = Ok bs.
Proof.
  induction 1 as [|a t (b & Ha) _ (bs & IH)]; simpl.
  - eauto.
  - rewrite Ha, IH. simpl. eauto.
Qed.

Lemma mapM_inv {A B} (f : A -> exc B) (l : list A) :
  forall bs, mapM f l = Ok bs -> Forall2 (fun a b => f a = Ok b) l bs.
Proof.
  induction l as [|a t IH]; simpl; intros bs H.
  - injection H as <-. constructor.
  - destruct (f a) as [b|] eqn:Ea; simpl in H; [|discriminate].
    destruct (mapM f t) as [bs'|] eqn:Et; simpl in H; [|discriminate].
    injection H as <-. constructor; auto.
Qed.

Lemma percentDisplay_total (what : string) (f : field) :
  exists o, percentDisplay what f = Ok o.
Proof. destruct f; simpl; eauto. Qed.

Lemma renderRow_inv (best : BaseValueItem) (nav : bool) (i : nat)
    (item : BaseValueItem) (row : Row) :
  renderRow best nav i item = Ok row ->
  row_symbol row = symbol (bv_etf item)
  /\ row_isBest row = Nat.eqb i 0
  /\ row_perGramPrice row = perGram (bv_etf item)
  /\ row_priceDiffPercent row =
       (if Nat.eqb i 0 then Fin 0
        else diffPercentOf (perGram (bv_etf item)) (bv_perGramPrice best))
  /\ row_priceDiffAbsolute row =
       (if Nat.eqb i 0 then Fin 0
        else num_sub (perGram (bv_etf item)) (bv_perGramPrice best)).
Proof.
  unfold renderRow.
  destruct (percentDisplay_total "stopaj_rate.toFixed" (stopaj_rate (bv_etf item))) as (s & ->).
  destruct (percentDisplay_total "expense_ratio.toFixed" (expense_ratio (bv_etf item))) as (e & ->).
  cbn [bind].
  destruct (toFixed "baseValue.toFixed" (bv_baseValue item)) as [n|]; cbn [bind];
    [|discriminate].
  intro H. injection H as <-. simpl. repeat split.
Qed.

Lemma renderRow_total (best : BaseValueItem) (nav : bool) (i : nat)
    (item : BaseValueItem) (n : jsnum) :
  bv_baseValue item = JNumber n -> exists row, renderRow best nav i item = Ok row.
Proof.
  intro E. unfold renderRow.
  destruct (percentDisplay_total "stopaj_rate.toFixed" (stopaj_rate (bv_etf item))) as (s & ->).
  destruct (percentDisplay_total "expense_ratio.toFixed" (expense_ratio (bv_etf item))) as (e & ->).
  rewrite E. simpl. eauto.
Qed.

Lemma find_item_In (s : string) (items : list BaseValueItem) (found : BaseValueItem) :
  find_item s items = Some found -> In found items /\ symbol (bv_etf found) = s.
Proof.
  unfold find_item. intro H. apply find_some in H as [Hin E].
  apply String.eqb_eq in E. auto.
Qed.

Lemma exampleWithSpot_total (items : list BaseValueItem) (s : string) :
  Forall numeric_base items -> exists o, exampleWithSpot items s = Ok o.
Proof.
  intro F. unfold exampleWithSpot.
  destruct (find_item s items) as [found|] eqn:E; [|eauto].
  apply find_item_In in E as [Hin _].
  rewrite Forall_forall in F. destruct (F _ Hin) as (n & ->). simpl. eauto.
Qed.

Lemma exampleFallback_total (items : list BaseValueItem) (s : string) :
  Forall numeric_base items -> exists e, exampleFallback items s = Ok e.
Proof.
  intro F. unfold exampleFallback.
  destruct (find_item s items) as [found|] eqn:E; [|eauto].
  apply find_item_In in E as [Hin _].
  rewrite Forall_forall in F. destruct (F _ Hin) as (n & ->). simpl. eauto.
Qed.

Lemma exampleWithoutSpot_total (items : list BaseValueItem) (s : string) :
  Forall numeric_base items -> exists o, exampleWithoutSpot items s = Ok o.
Proof.
  intro F. unfold exampleWithoutSpot.
  destruct (exampleFallback_total items s F) as (e & ->).
  destruct (String.eqb s "ZGOLD"); simpl; [eauto|].
  destruct (find_item s items); eauto.
Qed.

(** What [renderTable] puts in the view it returns. *)
Lemma renderTable_inv (data : Data) (best : BaseValueItem)
    (items : list BaseValueItem) (t : TableView) :
  renderTable data best items = Ok t ->
  forEachIndexed (renderRow best (hasNavData items)) 0%nat items = Ok (tv_rows t)
  /\ tv_bestSymbol t = symbol (bv_etf best)
  /\ tv_bestPerGramPrice t = bv_perGramPrice best
  /\ tv_others t = map (otherEtf best) (tl items)
  /\ exists examples,
       (if truthy (spotGramGoldPrice data)
        then mapM (exampleWithSpot items) exampleSymbols
        else mapM (exampleWithoutSpot items) exampleSymbols) = Ok examples
       /\ tv_examples t = somes examples.
Proof.
  unfold renderTable, spotGramGoldPrice.
  destruct (forEachIndexed _ _ items) as [rows|]; cbn [bind]; [|discriminate].
  destruct (toFixed _ (bv_baseValue best)) as [b|]; cbn [bind]; [|discriminate].
  destruct (if truthy (js_or (spot_gram_gold_price data) JNull)
            then mapM (exampleWithSpot items) exampleSymbols
            else mapM (exampleWithoutSpot items) exampleSymbols)
    as [examples|]; cbn [bind]; [|discriminate].
  intro H. injection H as <-. simpl. repeat split. eauto.
Qed.

Lemma renderTable_total (data : Data) (best : BaseValueItem)
    (items : list BaseValueItem) :
  Forall numeric_base items -> numeric_base best ->
  exists t, renderTable data best items = Ok t.
Proof.
  intros F (b & Eb). unfold renderTable.
  destruct (forEachIndexed_total (renderRow best (hasNavData items)) items)
    with (i := 0%nat) as (rows & ->).
  { eapply Forall_impl; [|exact F]. intros item (n & E) i.
    eapply renderRow_total, E. }
  rewrite Eb. cbn [bind].
  assert (exists examples,
    (if truthy (js_or (spot_gram_gold_price data) JNull)
     then mapM (exampleWithSpot items) exampleSymbols
     else mapM (exampleWithoutSpot items) exampleSymbols) = Ok examples)
    as (examples & ->).
  { destruct (truthy _); apply mapM_total, Forall_forall; intros s _.
    - apply exampleWithSpot_total, F.
    - apply exampleWithoutSpot_total, F. }
  simpl. eauto.
Qed.

Lemma ranked_numeric (data : Data) : Forall numeric_base (etfsWithBaseValue data).
Proof.
  apply Forall_forall. intros item Hin.
  destruct (ranked_inv data item Hin) as (? & ? & g & _ & _ & _ & _ & _ & _ & _ & E).
  exists (Fin g). exact E.
Qed.

(** The comparison panel is always produced: no input makes it throw. *)
Lemma renderComparison_total (dom : Dom) (data : Data) :
  exists c, renderComparison dom data = Ok c.
Proof.
  unfold renderComparison, comparisonOf.
  destruct (dom_baseValueComparison dom); [|eauto].
  pose proof (ranked_numeric data) as F.
  destruct (etfsWithBaseValue data) as [|best rest]; [eauto|].
  destruct (renderTable_total data best (best :: rest) F) as (t & ->).
  - inversion F; assumption.
  - simpl. eauto.
Qed.

Lemma renderComparison_table (dom : Dom) (data : Data) (t : TableView) :
  renderComparison dom data = Ok (Table t) ->
  exists best rest,
    etfsWithBaseValue data = best :: rest
    /\ renderTable data best (best :: rest) = Ok t.
Proof.
  unfold renderComparison, comparisonOf.
  destruct (dom_baseValueComparison dom); [|discriminate].
  destruct (etfsWithBaseValue data) as [|best rest]; [discriminate|].
  destruct (renderTable data best (best :: rest)) as [t'|] eqn:E; simpl; [|discriminate].
  intro H. injection H as ->. eauto.
Qed.

(** The rows of the table: the first one is built from the best item at
    index 0, every later one from a later item at a positive index. *)
Lemma table_rows (dom : Dom) (data : Data) (t : TableView) :
  renderComparison dom data = Ok (Table t) ->
  exists best rest r0 rs,
    etfsWithBaseValue data = best :: rest
    /\ renderTable data best (best :: rest) = Ok t
    /\ tv_rows t = r0 :: rs
    /\ renderRow best (hasNavData (best :: rest)) 0 best = Ok r0
    /\ Forall2 (fun item row => exists n, (1 <= n)%nat
                  /\ renderRow best (hasNavData (best :: rest)) n item = Ok row)
         rest rs.
Proof.
  intro H. apply renderComparison_table in H as (best & rest & E & Ht).
  exists best, rest.
  destruct (renderTable_inv _ _ _ _ Ht) as (Hrows & _).
  apply forEachIndexed_head in Hrows as (r0 & rs & Er & H0 & Hrs).
  exists r0, rs. auto.
Qed.

Lemma Forall2_combine {A B} (P : A -> Prop) (R S : A -> B -> Prop)
    (l : list A) (l' : list B) :
  (forall a b, P a -> R a b -> S a b) ->
  Forall P l -> Forall2 R l l' -> Forall2 S l l'.
Proof.
  intros HS F H. induction H as [|a b l l' Hab _ IH]; constructor.
  - apply HS; [inversion F; assumption | exact Hab].
  - apply IH. inversion F; assumption.
Qed.

(** ** The base value between ZGOLD and GLDTR *)

(** C10: the base value is the quotient GLDTR price / ZGOLD price exactly
    when the response has a ZGOLD fund and a GLDTR fund (the first of each
    symbol) and both prices are numbers above 0; in every other case it is
    [null].  The divisor, when the division is made, is a number above 0. *)
Theorem base_value_guard (data : Data) :
  (exists zgold gldtr pz pg,
      find (has_symbol "ZGOLD") (all_etfs data) = Some zgold
      /\ find (has_symbol "GLDTR") (all_etfs data) = Some gldtr
      /\ In zgold (all_etfs data) /\ In gldtr (all_etfs data)
      /\ current_price zgold = Num pz /\ current_price gldtr = Num pg
      /\ 0 < pz /\ 0 < pg
      /\ baseValue data = JNumber (Fin (pg / pz)))
  \/ (baseValue data = JNull
      /\ ~ (exists zgold gldtr pz pg,
              find (has_symbol "ZGOLD") (all_etfs data) = Some zgold
              /\ find (has_symbol "GLDTR") (all_etfs data) = Some gldtr
              /\ current_price zgold = Num pz /\ current_price gldtr = Num pg
              /\ 0 < pz /\ 0 < pg)).
Proof.
  unfold baseValue.
  destruct (find (has_symbol "ZGOLD") (all_etfs data)) as [z|] eqn:Ez;
    [|right; split; [reflexivity | intros (? & ? & ? & ? & H & _); discriminate]].
  destruct (find (has_symbol "GLDTR") (all_etfs data)) as [g|] eqn:Eg;
    [|right; split; [reflexivity | intros (? & ? & ? & ? & _ & H & _); discriminate]].
  destruct (js_gt (current_price z) zero) eqn:Hz.
  - destruct (js_gt (current_price g) zero) eqn:Hg; simpl.
    + left.
      apply js_gt_zero_inv in Hz as (pz & Epz & Hpz).
      apply js_gt_zero_inv in Hg as (pg & Epg & Hpg).
      exists z, g, pz, pg. repeat split; trivial.
      * apply (find_some _ _ Ez).
      * apply (find_some _ _ Eg).
      * unfold js_div. rewrite Epz, Epg. simpl ToNumber.
        rewrite (num_div_pos pg pz Hpz). reflexivity.
    + right. split; [reflexivity|].
      intros (z' & g' & pz & pg & Hz' & Hg' & _ & Epg & _ & Hpg).
      injection Hg' as <-. rewrite Epg, js_gt_zero_intro in Hg by exact Hpg.
      discriminate.
  - right. split; [reflexivity|].
    intros (z' & g' & pz & pg & Hz' & _ & Epz & _ & Hpz & _).
    injection Hz' as <-. rewrite Epz, js_gt_zero_intro in Hz by exact Hpz.
    discriminate.
Qed.

(** ** The filters of the two rankings *)

Lemma filters_agree_filter (data : Data) :
  filters_agree data ->
  filter (fun etf => truthy (gold_backing_grams etf)) (all_etfs data)
  = ranked_funds data.
Proof.
  intro H. unfold ranked_funds. apply filter_ext_in. intros etf Hin.
  destruct (truthy (gold_backing_grams etf)) eqn:E.
  - symmetry. apply H; assumption.
  - unfold has_price_and_backing. rewrite E, andb_false_r. reflexivity.
Qed.

(** ** The cards: what a card holds *)

Lemma displayResults_inv (dom : Dom) (data : Data) (r : Rendering) :
  displayResults dom data = Ok r ->
  renderComparison dom data = Ok (r_comparison r)
  /\ mapM (renderCard dom data) (all_etfs data) = Ok (r_cards r).
Proof.
  unfold displayResults.
  destruct (renderComparison dom data) as [c|]; cbn [bind]; [|discriminate].
  destruct (mapM (renderCard dom data) (all_etfs data)) as [cards|]; cbn [bind];
    [|discriminate].
  intro H. injection H as <-. auto.
Qed.

Lemma renderCard_inv (dom : Dom) (data : Data) (etf : Etf) (card : Card) :
  renderCard dom data etf = Ok card ->
  card_symbol card = symbol etf
  /\ card_isCheapest card = isCheapest data etf
  /\ card_perGramShown card =
       (if truthy (cardPerGramPrice etf)
        then Some (formatPrice (cardPerGramPrice etf)) else None)
  /\ formula_shows etf (card_formula card).
Proof.
  unfold renderCard.
  match goal with |- context [bind ?m _] => destruct m as [shownDiff|] end;
    cbn [bind]; [|discriminate].
  match goal with |- context [bind ?m _] => destruct m as [formula|] eqn:Ef end;
    cbn [bind]; [|discriminate].
  destruct (dom_etfList dom); [|discriminate].
  intro H. injection H as <-. simpl. repeat split.
  destruct (String.eqb (symbol etf) "ZGOLD" || String.eqb (symbol etf) "GLDTR");
    [|injection Ef as <-; exact I].
  destruct (truthy (gold_backing_grams etf)); [|injection Ef as <-; exact I].
  destruct (toFixed _ (gold_backing_grams etf)); cbn [bind] in Ef; [|discriminate].
  injection Ef as <-. reflexivity.
Qed.

Lemma sample_tie_filters_agree : filters_agree sample_tie.
Proof.
  intros etf [<-|[<-|[]]] _; vm_compute; reflexivity.
Qed.

(** ** The per-gram price shown at each place *)

Lemma Forall2_In_r {A B} (R : A -> B -> Prop) (l : list A) (l' : list B) (b : B) :
  Forall2 R l l' -> In b l' -> exists a, In a l /\ R a b.
Proof.
  induction 1 as [|a b' l l' Hab _ IH]; simpl; [contradiction|].
  intros [<-|Hin]; [eauto|].
  destruct (IH Hin) as (a' & Ha' & HR). eauto.
Qed.

Lemma item_site (data : Data) (item : BaseValueItem) :
  In item (etfsWithBaseValue data) ->
  site_follows_formula data (symbol (bv_etf item), bv_perGramPrice item)
  /\ bv_perGramPrice item = perGram (bv_etf item)
  /\ truthy (JNumber (bv_perGramPrice item)) = true.
Proof.
  intro Hin.
  destruct (ranked_inv data item Hin)
    as (etf & p & g & -> & Hetf & _ & _ & Hp & Hg & Ek & _).
  split; [exists etf; simpl; auto|]. split; [reflexivity|].
  rewrite Ek. simpl. apply negb_true_iff, Qeqb0_false_iff.
  pose proof (Qdiv_pos p g Hp Hg). lra.
Qed.

Lemma rows_of_items (dom : Dom) (data : Data) (t : TableView) :
  renderComparison dom data = Ok (Table t) ->
  Forall2 (fun item row => row_symbol row = symbol (bv_etf item)
                           /\ row_perGramPrice row = perGram (bv_etf item))
    (etfsWithBaseValue data) (tv_rows t).
Proof.
  intro H.
  destruct (table_rows dom data t H) as (best & rest & r0 & rs & -> & _ & -> & H0 & Hrs).
  constructor.
  - apply renderRow_inv in H0 as (Es & _ & Epg & _). auto.
  - eapply Forall2_impl; [|exact Hrs].
    intros item row (n & _ & Hrow).
    apply renderRow_inv in Hrow as (Es & _ & Epg & _). auto.
Qed.

Lemma exampleWithSpot_site (data : Data) (s : string) (e : Example) :
  exampleWithSpot (etfsWithBaseValue data) s = Ok (Some e) ->
  site_follows_formula data (ex_symbol e, ex_perGramPrice e).
Proof.
  unfold exampleWithSpot.
  destruct (find_item s (etfsWithBaseValue data)) as [found|] eqn:Ef; [|discriminate].
  apply find_item_In in Ef as [Hin Es].
  destruct (toFixed _ (bv_baseValue found)); cbn [bind]; [|discriminate].
  intro H. injection H as <-. simpl. rewrite <- Es.
  apply (item_site data found Hin).
Qed.

Lemma exampleWithoutSpot_site (data : Data) (s : string) (e : Example) :
  truthy (spotGramGoldPrice data) = false ->
  exampleWithoutSpot (etfsWithBaseValue data) s = Ok (Some e) ->
  site_follows_formula data (ex_symbol e, ex_perGramPrice e)
  \/ zgold_placeholder data (ex_symbol e, ex_perGramPrice e).
Proof.
  intro Hspot. unfold exampleWithoutSpot, exampleFallback.
  destruct (find_item s (etfsWithBaseValue data)) as [found|] eqn:Ef.
  - apply find_item_In in Ef as [Hin Es].
    destruct (item_site data found Hin) as (Hsite & _ & Ht).
    assert (He : forall e', Ok {| ex_symbol := s;
                   ex_price := formatPrice (js_or (current_price (bv_etf found)) zero);
                   ex_baseValue := e';
                   ex_perGramPrice :=
                     formatPrice (js_or (JNumber (bv_perGramPrice found)) zero) |}
                 = Ok e ->
                 site_follows_formula data (ex_symbol e, ex_perGramPrice e)).
    { intros e' H. injection H as <-. simpl. unfold js_or. rewrite Ht. simpl.
      rewrite <- Es. exact Hsite. }
    destruct (toFixed _ (bv_baseValue found)) as [b|]; cbn [bind];
      [|destruct (String.eqb s "ZGOLD"); discriminate].
    destruct (String.eqb s "ZGOLD"); intro H; left; apply (He b);
      injection H as <-; reflexivity.
  - destruct (String.eqb s "ZGOLD") eqn:Es; cbn [bind]; [|discriminate].
    apply String.eqb_eq in Es. subst s.
    intro H. injection H as <-. right. repeat split; assumption.
Qed.

Lemma somes_In {A} (l : list (option A)) (a : A) : In a (somes l) -> In (Some a) l.
Proof.
  induction l as [|[x|] t IH]; simpl; [contradiction| |auto].
  intros [->|H]; auto.
Qed.

Lemma examples_sites (data : Data) (best : BaseValueItem) (t : TableView) (e : Example) :
  renderTable data best (etfsWithBaseValue data) = Ok t ->
  In e (tv_examples t) ->
  site_follows_formula data (ex_symbol e, ex_perGramPrice e)
  \/ zgold_placeholder data (ex_symbol e, ex_perGramPrice e).
Proof.
  intros Ht Hin.
  destruct (renderTable_inv _ _ _ _ Ht) as (_ & _ & _ & _ & examples & Hex & Ee).
  rewrite Ee in Hin. apply somes_In in Hin.
  destruct (truthy (spotGramGoldPrice data)) eqn:Hspot; apply mapM_inv in Hex;
    destruct (Forall2_In_r _ _ _ _ Hex Hin) as (s & _ & Hs).
  - left. eapply exampleWithSpot_site, Hs.
  - eapply exampleWithoutSpot_site; eassumption.
Qed.

Lemma card_sites (dom : Dom) (data : Data) (etf : Etf) (card : Card)
    (site : string * jsnum) :
  In etf (all_etfs data) ->
  renderCard dom data etf = Ok card ->
  In site (cardPerGramSites card) -> site_follows_formula data site.
Proof.
  intros Hetf Hcard Hin.
  apply renderCard_inv in Hcard as (Es & _ & Eshown & Hformula).
  unfold cardPerGramSites in Hin. apply in_app_or in Hin as [Hin|Hin].
  - rewrite Eshown in Hin.
    destruct (truthy (cardPerGramPrice etf)) eqn:Et; [|contradiction].
    destruct Hin as [<-|[]]. exists etf. simpl. repeat split; auto.
    unfold cardPerGramPrice in *.
    destruct (truthy (gold_backing_grams etf)); [reflexivity | discriminate].
  - destruct (card_formula card) as [[b v|]|]; simpl in Hin; try contradiction.
    destruct Hin as [<-|[]]. exists etf. simpl. auto.
Qed.

Lemma table_sites (dom : Dom) (data : Data) (t : TableView) (site : string * jsnum) :
  renderComparison dom data = Ok (Table t) ->
  In site (tablePerGramSites t) ->
  site_follows_formula data site \/ zgold_placeholder data site.
Proof.
  intros H Hin.
  pose proof (rows_of_items dom data t H) as Hrows.
  destruct (table_rows dom data t H) as (best & rest & _ & _ & E & Ht & _).
  destruct (renderTable_inv _ _ _ _ Ht) as (_ & Ebs & Ebp & Eo & _).
  assert (Hitem : forall item, In item (best :: rest) ->
            site_follows_formula data (symbol (bv_etf item), bv_perGramPrice item)).
  { intros item Hi. apply item_site. rewrite E. exact Hi. }
  unfold tablePerGramSites in Hin.
  apply in_app_or in Hin as [Hin|Hin]; [|apply in_app_or in Hin as [Hin|Hin]];
    [| |apply in_app_or in Hin as [Hin|Hin]].
  - left. apply in_map_iff in Hin as (row & <- & Hrow).
    destruct (Forall2_In_r _ _ _ _ Hrows Hrow) as (item & Hi & Es & Ep).
    destruct (item_site data item Hi) as (Hs & Epg & _).
    rewrite Es, Ep, <- Epg. exact Hs.
  - left. destruct Hin as [<-|[]]. rewrite Ebs, Ebp.
    apply Hitem. left. reflexivity.
  - left. rewrite Eo in Hin. simpl in Hin. rewrite map_map in Hin.
    apply in_map_iff in Hin as (item & <- & Hi). simpl.
    apply Hitem. right. exact Hi.
  - apply in_map_iff in Hin as (e & <- & He).
    rewrite <- E in Ht. exact (examples_sites data best t e Ht He).
Qed.

Lemma symbol_unique (funds : list Etf) (a b : Etf) :
  NoDup (map symbol funds) -> In a funds -> In b funds ->
  symbol a = symbol b -> a = b.
Proof.
  induction funds as [|x rest IH]; simpl; [contradiction|].
  intros Hnd Ha Hb Es. inversion Hnd as [|? ? Hx Hrest]; subst.
  destruct Ha as [->|Ha], Hb as [->|Hb]; trivial.
  - exfalso. apply Hx. rewrite Es. apply in_map, Hb.
  - exfalso. apply Hx. rewrite <- Es. apply in_map, Ha.
  - apply IH; assumption.
Qed.

(** X13: every place that prints a per-gram price (table
    rows, the best-fund box and the list under it, the worked examples, the
    cards and their formula boxes) prints current_price /
    gold_backing_grams of a fund of the response with the symbol it is
    printed for, so with unique symbols all places agree on a fund.  The one
    exception is the ZGOLD line of the worked examples when the response has
    no spot price and no ZGOLD fund is ranked: it prints 0. *)
Theorem per_gram_sites (dom : Dom) (data : Data) (r : Rendering) :
  displayResults dom data = Ok r ->
  (forall site, In site (perGramSites r) ->
     site_follows_formula data site \/ zgold_placeholder data site)
  /\ (NoDup (map symbol (all_etfs data)) ->
      forall site1 site2,
        In site1 (perGramSites r) -> In site2 (perGramSites r) ->
        fst site1 = fst site2 ->
        snd site1 = snd site2
        \/ zgold_placeholder data site1 \/ zgold_placeholder data site2).
Proof.
  intro H.
  assert (Hall : forall site, In site (perGramSites r) ->
            site_follows_formula data site \/ zgold_placeholder data site).
  { destruct (displayResults_inv dom data r H) as [Hc Hcards].
    intros site Hin. unfold perGramSites in Hin.
    apply in_app_or in Hin as [Hin|Hin].
    - destruct (r_comparison r) as [| |t]; try contradiction.
      exact (table_sites dom data t site Hc Hin).
    - left. apply in_flat_map in Hin as (card & Hcard & Hsite).
      apply mapM_inv in Hcards.
      destruct (Forall2_In_r _ _ _ _ Hcards Hcard) as (etf & Hetf & Hr).
      exact (card_sites dom data etf card site Hetf Hr Hsite). }
  split; [exact Hall|].
  intros Hnd site1 site2 H1 H2 Es.
  destruct (Hall site1 H1) as [(e1 & Hin1 & Es1 & Ev1)|Hp1]; [|auto].
  destruct (Hall site2 H2) as [(e2 & Hin2 & Es2 & Ev2)|Hp2]; [|auto].
  left. rewrite Ev1, Ev2.
  rewrite (symbol_unique (all_etfs data) e1 e2 Hnd Hin1 Hin2); [reflexivity|].
  congruence.
Qed.

Lemma per_gram_sites_witness :
  exists r, displayResults dom_full sample_nav = Ok r
    /\ forall site, In site (perGramSites r) ->
         site_follows_formula sample_nav site \/ zgold_placeholder sample_nav site.
Proof.
  eexists. split; [vm_compute; reflexivity|].
  exact (proj1 (per_gram_sites dom_full sample_nav _ eq_refl)).
Defined.

(** C4 at a response with no spot price and a ZGOLD fund that is not
    ranked (price 100, backing -2): the ZGOLD card prints -50 per gram and
    the ZGOLD line of the worked examples, the one example line printed
    without the test that the fund is ranked, prints 0, which is not
    current_price / gold_backing_grams of the ZGOLD fund. *)
Lemma unranked_zgold_line_shows_zero :
  exists r, displayResults dom_full sample_unranked_zgold = Ok r
    /\ In ("ZGOLD", Fin 0) (perGramSites r)
    /\ In ("ZGOLD", perGram (fund "ZGOLD" (Num 100) (Num (-2)))) (perGramSites r)
    /\ ~ num_eqv (Fin 0) (perGram (fund "ZGOLD" (Num 100) (Num (-2))))
    /\ ~ site_follows_formula sample_unranked_zgold ("ZGOLD", Fin 0).
Proof.
  eexists. split; [vm_compute; reflexivity|].
  split; [vm_compute; tauto|]. split; [vm_compute; tauto|].
  split; [vm_compute; discriminate|].
  intros (etf & Hin & Es & Ev). simpl in Hin, Es, Ev.
  destruct Hin as [<-|[<-|[]]]; [|discriminate Es].
  vm_compute in Ev. discriminate Ev.
Qed.

(** ** Funds without a positive backing *)

(** The table ranking holds only funds with a backing above 0. *)
Lemma ranked_backing_positive (data : Data) (item : BaseValueItem) :
  In item (etfsWithBaseValue data) ->
  exists g, gold_backing_grams (bv_etf item) = Num g /\ 0 < g.
Proof.
  intro H.
  destruct (ranked_inv data item H) as (etf & p & g & -> & _ & _ & Eg & _ & Hg & _).
  exists g. auto.
Qed.

(** A fund whose backing is missing, [null] or 0 is never marked on its card. *)
Lemma no_backing_not_cheapest (data : Data) (etf : Etf) :
  truthy (gold_backing_grams etf) = false -> isCheapest data etf = false.
Proof. intro H. unfold isCheapest. rewrite H. reflexivity. Qed.

(** C2 at a fund with a negative backing (A: price 100, backing -2, next to
    B: price 100, backing 2): the filter of the card ranking only tests that
    the backing is truthy, so A is ranked first at -50 per gram, selected as
    the cheapest and marked on its card; the table, whose filter also asks
    for a backing above 0, leaves A out and marks B. *)
Theorem negative_backing_marked_cheapest :
  exists r, displayResults dom_full sample_negative_backing = Ok r
    /\ map (fun item => symbol (pg_etf item)) (etfsWithPerGram sample_negative_backing)
       = ["A"; "B"]
    /\ cheapestEtfSymbol sample_negative_backing = Some "A"
    /\ cheapestPerGramPrice sample_negative_backing = JNumber (Fin (-100 # 2))
    /\ cheapestCards r = ["A"]
    /\ rowOrder (r_comparison r) = ["B"].
Proof.
  eexists. split; [vm_compute; reflexivity|].
  repeat split; vm_compute; reflexivity.
Qed.

(** C8 at a price-difference entry without its [percent] field (A: price
    100, backing 2, entry with per_gram_price 50 only): the guard of the
    difference line tests the entry, its per-gram price and the cheapest
    price, then calls [toFixed] on the missing [percent], which throws. *)
Theorem missing_percent_throws :
  displayResults dom_full sample_missing_percent
  = TypeError "priceDiff.percent.toFixed".
Proof. vm_compute. reflexivity. Qed.

(** On the empty sequence nothing is ranked, no card is built and the
    panel shows the notice that no gold backing data was found. *)
Lemma empty_sequence_no_data (diffs : list (string * PriceDiff)) (spot : field) :
  displayResults dom_full (response [] diffs spot)
  = Ok {| r_recommendation := Some ""; r_comparison := NoData; r_cards := [] |}.
Proof. reflexivity. Qed.

(** C9 at a sequence whose only fund does not qualify (A: price 100, backing
    -2): the table ranking is empty and the panel shows the no-data notice,
    yet the card ranking holds A, selects it as cheapest and the card of A
    is marked cheapest. *)
Theorem unranked_fund_marked_cheapest :
  exists r, displayResults dom_full sample_only_negative = Ok r
    /\ ranked_funds sample_only_negative = []
    /\ etfsWithBaseValue sample_only_negative = []
    /\ r_comparison r = NoData
    /\ cheapestEtfSymbol sample_only_negative = Some "A"
    /\ cheapestCards r = ["A"].
Proof.
  eexists. split; [vm_compute; reflexivity|].
  repeat split; vm_compute; reflexivity.
Qed.

(** ** When [displayResults] throws *)

Lemma truthy_guarded (f : field) :
  truthy (if truthy f then field_val f else JNull) = truthy f.
Proof. destruct (truthy f) eqn:E; [exact E | reflexivity]. Qed.

Lemma truthy_field_num (f : field) :
  truthy f = true -> exists q, f = Num q /\ ~ q == 0.
Proof.
  destruct f as [| |q]; simpl; try discriminate.
  intro H. apply negb_true_iff, Qeqb0_false_iff in H. eauto.
Qed.

(** A card is built and appended exactly when the list element exists and
    the difference line, if its guard passes, finds a numeric [percent]. *)
Lemma renderCard_ok_iff (dom : Dom) (data : Data) (etf : Etf) :
  (exists card, renderCard dom data etf = Ok card) <-> card_can_render dom data etf.
Proof.
  unfold renderCard, card_can_render, diff_line_guard.
  assert (Hformula : exists fo,
    (if String.eqb (symbol etf) "ZGOLD" || String.eqb (symbol etf) "GLDTR" then
       if truthy (gold_backing_grams etf) then
         shownBacking <- toFixed "gold_backing_grams.toFixed" (gold_backing_grams etf) ;;
         Ok (Some (FormulaWithBacking shownBacking
                     (formatPrice (JNumber (js_div (current_price etf)
                                              (gold_backing_grams etf))))))
       else Ok (Some FormulaOnly)
     else Ok None) = Ok fo).
  { destruct (String.eqb (symbol etf) "ZGOLD" || String.eqb (symbol etf) "GLDTR");
      [|eauto].
    destruct (truthy (gold_backing_grams etf)) eqn:Et; [|eauto].
    apply truthy_field_num in Et as (q & -> & _). simpl. eauto. }
  destruct Hformula as (fo & ->).
  destruct (get_property (price_difference data) (symbol etf)) as [pd|].
  - rewrite truthy_guarded.
    destruct (truthy (per_gram_price pd) && truthy (cheapestPerGramPrice data)).
    + destruct (percent pd) as [| |q] eqn:Ep; simpl.
      * split; [intros (? & H); discriminate|].
        intros (_ & H). destruct (H eq_refl) as (pd' & q & E & Eq).
        injection E as <-. congruence.
      * split; [intros (? & H); discriminate|].
        intros (_ & H). destruct (H eq_refl) as (pd' & q & E & Eq).
        injection E as <-. congruence.
      * destruct (dom_etfList dom); split.
        -- intros _. split; [reflexivity|]. intros _. exists pd, q. auto.
        -- eauto.
        -- intros (? & H); discriminate.
        -- intros (H & _); discriminate.
    + simpl. destruct (dom_etfList dom); split.
      * intros _. split; [reflexivity | discriminate].
      * eauto.
      * intros (? & H); discriminate.
      * intros (H & _); discriminate.
  - simpl. destruct (dom_etfList dom); split.
    + intros _. split; [reflexivity | discriminate].
    + eauto.
    + intros (? & H); discriminate.
    + intros (H & _); discriminate.
Qed.

(** ** The fields of a row and of the table *)

Lemma percentDisplay_field (what : string) (f : field) :
  percentDisplay what f = Ok (shown_percent f).
Proof. destruct f; reflexivity. Qed.

(** All the fields of a row, for an item whose backing is a number. *)
Lemma renderRow_fields (best : BaseValueItem) (nav : bool) (n : nat)
    (item : BaseValueItem) (row : Row) :
  renderRow best nav n item = Ok row ->
  JNumber (row_baseValue row) = bv_baseValue item
  /\ row_price row = ToNumber (current_price (bv_etf item))
  /\ row_nav row = (if nav then Some (navCell (bv_etf item)) else None)
  /\ row_navUpdated row = has_nav (bv_etf item)
  /\ row_stopaj row = shown_percent (stopaj_rate (bv_etf item))
  /\ row_expense row = shown_percent (expense_ratio (bv_etf item))
  /\ row_diffShown row =
       (if Nat.eqb n 0 then None
        else Some (row_priceDiffAbsolute row, row_priceDiffPercent row)).
Proof.
  unfold renderRow. rewrite !percentDisplay_field. cbn [bind].
  destruct (bv_baseValue item) as [| |b]; cbn [toFixed bind]; try discriminate.
  intro H. injection H as <-. simpl.
  destruct (Nat.eqb n 0); repeat split.
Qed.

Lemma renderTable_fields (data : Data) (best : BaseValueItem)
    (items : list BaseValueItem) (t : TableView) :
  renderTable data best items = Ok t ->
  tv_spot t = (if truthy (spotGramGoldPrice data)
               then Some (ToNumber (spotGramGoldPrice data)) else None)
  /\ JNumber (tv_bestBaseValue t) = bv_baseValue best
  /\ tv_bestPrice t = ToNumber (current_price (bv_etf best))
  /\ tv_formula t = bv_formula best.
Proof.
  unfold renderTable, spotGramGoldPrice.
  destruct (forEachIndexed _ _ items) as [rows|]; cbn [bind]; [|discriminate].
  destruct (bv_baseValue best) as [| |b]; cbn [toFixed bind]; try discriminate.
  destruct (if truthy (js_or (spot_gram_gold_price data) JNull)
            then mapM (exampleWithSpot items) exampleSymbols
            else mapM (exampleWithoutSpot items) exampleSymbols)
    as [examples|]; cbn [bind]; [|discriminate].
  intro H. injection H as <-. simpl. repeat split.
Qed.

(** ** The table against its own summary *)

Lemma Forall2_flip_map {A B C} (S : B -> C -> Prop) (f : A -> C)
    (l : list A) (l' : list B) :
  Forall2 (fun a b => S b (f a)) l l' -> Forall2 S l' (map f l).
Proof. induction 1; simpl; constructor; assumption. Qed.

(** X5: the box under the table repeats the table: it names the fund of
    the first row with that row's backing, price and per-gram price, the
    first row prints no difference, and every later row has one entry in
    the list under the best fund, with the same symbol, per-gram price,
    absolute difference and percent difference as the row prints. *)
Theorem summary_matches_rows (dom : Dom) (data : Data) (t : TableView) :
  renderComparison dom data = Ok (Table t) ->
  exists r0 rs,
    tv_rows t = r0 :: rs
    /\ row_isBest r0 = true /\ row_diffShown r0 = None
    /\ tv_bestSymbol t = row_symbol r0
    /\ tv_bestBaseValue t = row_baseValue r0
    /\ tv_bestPrice t = row_price r0
    /\ tv_bestPerGramPrice t = row_perGramPrice r0
    /\ Forall2 summary_entry_matches rs (tv_others t).
Proof.
  intro H.
  destruct (table_rows dom data t H) as (best & rest & r0 & rs & E & Ht & Er & H0 & Hrs).
  destruct (renderTable_fields _ _ _ _ Ht) as (_ & Ebase & Eprice & _).
  destruct (renderTable_inv _ _ _ _ Ht) as (_ & Ebs & Ebp & Eo & _).
  assert (Hin : forall item, In item (best :: rest) -> In item (etfsWithBaseValue data))
    by (intros; rewrite E; assumption).
  exists r0, rs. split; [exact Er|].
  destruct (renderRow_inv _ _ _ _ _ H0) as (Es0 & Eb0 & Epg0 & _).
  destruct (renderRow_fields _ _ _ _ _ H0) as (Ebase0 & Eprice0 & _ & _ & _ & _ & Esh0).
  destruct (item_site data best (Hin _ (or_introl eq_refl))) as (_ & Ekb & _).
  simpl in Eb0, Esh0.
  split; [exact Eb0|]. split; [exact Esh0|]. split; [congruence|].
  split; [rewrite <- Ebase0 in Ebase; injection Ebase as ->; reflexivity|].
  split; [congruence|]. split; [congruence|].
  rewrite Eo. simpl tl. apply Forall2_flip_map.
    eapply Forall2_combine with (P := fun item => In item (etfsWithBaseValue data));
      [|apply Forall_forall; intros ? Hi; apply Hin; right; exact Hi | exact Hrs].
    intros item row Hitem (n & Hn & Hrow).
    destruct (renderRow_inv _ _ _ _ _ Hrow) as (Es & _ & Epg & Epct & Eabs).
    destruct (renderRow_fields _ _ _ _ _ Hrow) as (_ & _ & _ & _ & _ & _ & Esh).
    destruct (item_site data item Hitem) as (_ & Ek & _).
    destruct n; [lia|]. simpl in Epct, Eabs, Esh.
    unfold summary_entry_matches, otherEtf. simpl.
    rewrite Es, Epg, Esh, Epct, Eabs, Ek. repeat split.
Qed.

Lemma summary_matches_rows_witness :
  exists t, renderComparison dom_full sample_nav = Ok (Table t)
    /\ exists r0 rs, tv_rows t = r0 :: rs
         /\ tv_bestSymbol t = row_symbol r0
         /\ Forall2 summary_entry_matches rs (tv_others t).
Proof.
  eexists. split; [vm_compute; reflexivity|].
  destruct (summary_matches_rows dom_full sample_nav _ eq_refl)
    as (r0 & rs & Er & _ & _ & Es & _ & _ & _ & Ho).
  exists r0, rs. auto.
Defined.

(** ** The worked examples *)

Lemma find_item_ranked (data : Data) (s : string) :
  (exists found, find_item s (etfsWithBaseValue data) = Some found)
  <-> ranked_symbol data s = true.
Proof.
  unfold ranked_symbol, find_item. rewrite existsb_exists. split.
  - intros (found & H). apply find_some in H as [Hin Es].
    apply etfsWithBaseValue_In, in_map_iff in Hin as (etf & <- & Hetf).
    exists etf. split; [exact Hetf | exact Es].
  - intros (etf & Hetf & Es).
    destruct (find _ (etfsWithBaseValue data)) as [found|] eqn:Ef; [eauto|].
    exfalso.
    assert (Hin : In (base_value_item etf) (etfsWithBaseValue data))
      by (apply etfsWithBaseValue_In, in_map, Hetf).
    pose proof (find_none _ _ Ef (base_value_item etf) Hin) as Hn.
    simpl in Hn. unfold has_symbol in Es. congruence.
Qed.

Lemma find_item_unranked (data : Data) (s : string) :
  ranked_symbol data s = false -> find_item s (etfsWithBaseValue data) = None.
Proof.
  intro H. destruct (find_item s (etfsWithBaseValue data)) as [found|] eqn:E;
    [|reflexivity].
  assert (ranked_symbol data s = true) by (apply find_item_ranked; eauto).
  congruence.
Qed.

Lemma exampleWithSpot_symbol (data : Data) (s : string) (o : option Example) :
  exampleWithSpot (etfsWithBaseValue data) s = Ok o ->
  map ex_symbol (opt_list o) = (if ranked_symbol data s then [s] else []).
Proof.
  unfold exampleWithSpot.
  destruct (ranked_symbol data s) eqn:Er.
  - apply find_item_ranked in Er as (found & ->).
    destruct (toFixed _ _); cbn [bind]; [|discriminate].
    intro H. injection H as <-. reflexivity.
  - rewrite (find_item_unranked data s Er). intro H. injection H as <-. reflexivity.
Qed.

Lemma exampleWithoutSpot_symbol (data : Data) (s : string) (o : option Example) :
  exampleWithoutSpot (etfsWithBaseValue data) s = Ok o ->
  map ex_symbol (opt_list o)
  = (if String.eqb s "ZGOLD" || ranked_symbol data s then [s] else []).
Proof.
  unfold exampleWithoutSpot, exampleFallback.
  destruct (ranked_symbol data s) eqn:Er.
  - apply find_item_ranked in Er as (found & ->).
    destruct (toFixed _ _); cbn [bind];
      [|destruct (String.eqb s "ZGOLD"); discriminate].
    rewrite orb_true_r.
    destruct (String.eqb s "ZGOLD"); intro H; injection H as <-; reflexivity.
  - rewrite (find_item_unranked data s Er), orb_false_r.
    destruct (String.eqb s "ZGOLD"); cbn [bind]; intro H; injection H as <-;
      reflexivity.
Qed.

Lemma somes_opt_list {A} (l : list (option A)) : somes l = flat_map opt_list l.
Proof. induction l as [|[a|] t IH]; simpl; congruence. Qed.

Lemma examples_symbols (f : string -> exc (option Example)) (g : string -> bool)
    (symbols : list string) (examples : list (option Example)) :
  (forall s o, f s = Ok o -> map ex_symbol (opt_list o) = (if g s then [s] else [])) ->
  mapM f symbols = Ok examples ->
  map ex_symbol (somes examples) = filter g symbols.
Proof.
  intros Hf H. apply mapM_inv in H. rewrite somes_opt_list.
  induction H as [|s o symbols examples Hs _ IH]; simpl; [reflexivity|].
  rewrite map_app, IH, (Hf s o Hs). destruct (g s); reflexivity.
Qed.

(** X6: the worked examples are printed for ZGOLD, GLDTR and ISGLK, in
    that order, and only for those of them that are ranked in the table;
    except that without a spot price the ZGOLD line is always printed. *)
Theorem worked_examples_listed (dom : Dom) (data : Data) (t : TableView) :
  renderComparison dom data = Ok (Table t) ->
  map ex_symbol (tv_examples t)
  = if truthy (spotGramGoldPrice data)
    then filter (ranked_symbol data) ["ZGOLD"; "GLDTR"; "ISGLK"]
    else "ZGOLD" :: filter (ranked_symbol data) ["GLDTR"; "ISGLK"].
Proof.
  intro H.
  destruct (table_rows dom data t H) as (best & rest & _ & _ & E & Ht & _).
  destruct (renderTable_inv _ _ _ _ Ht) as (_ & _ & _ & _ & examples & Hex & ->).
  rewrite <- E in Hex.
  destruct (truthy (spotGramGoldPrice data)).
  - exact (examples_symbols _ _ _ _ (exampleWithSpot_symbol data) Hex).
  - rewrite (examples_symbols _ (fun s => String.eqb s "ZGOLD" || ranked_symbol data s)
               _ _ (exampleWithoutSpot_symbol data) Hex).
    reflexivity.
Qed.

Lemma worked_examples_listed_witness :
  exists t, renderComparison dom_full sample_unranked_zgold = Ok (Table t)
    /\ map ex_symbol (tv_examples t) = ["ZGOLD"; "GLDTR"].
Proof.
  eexists. split; [vm_compute; reflexivity|].
  exact (worked_examples_listed dom_full sample_unranked_zgold _ eq_refl).
Defined.

(** ** The NAV column *)

Lemma existsb_Permutation {A} (f : A -> bool) (l l' : list A) :
  Permutation l l' -> existsb f l = existsb f l'.
Proof.
  intro P. apply eq_true_iff_eq. rewrite !existsb_exists.
  split; intros (x & Hin & Hx); exists x; split; trivial.
  - eapply Permutation_in; eassumption.
  - eapply Permutation_in; [apply Permutation_sym|]; eassumption.
Qed.

Lemma hasNavData_ranked (data : Data) :
  hasNavData (etfsWithBaseValue data) = existsb has_nav (ranked_funds data).
Proof.
  unfold hasNavData.
  rewrite <- (existsb_Permutation _ _ _
                (sso_perm _ _ _ (etfsWithBaseValue_stable_sort data))).
  unfold qualifying. fold (ranked_funds data).
  induction (ranked_funds data) as [|etf l IH]; simpl; congruence.
Qed.

(** X7: the NAV column is in every row of the table or in none: it is
    there exactly when some ranked fund has a NAV above 0.  In it a row
    prints the NAV of its fund, or N/A when the fund has no NAV (missing,
    null or 0); the row is flagged as updated from NAV only for a NAV
    above 0. *)
Theorem nav_column (dom : Dom) (data : Data) (t : TableView) :
  renderComparison dom data = Ok (Table t) ->
  Forall2 (fun item row => nav_cell_of data (bv_etf item) row)
    (etfsWithBaseValue data) (tv_rows t).
Proof.
  intro H. pose proof (hasNavData_ranked data) as Hnav.
  destruct (table_rows dom data t H) as (best & rest & r0 & rs & E & _ & Er & H0 & Hrs).
  rewrite E in *. rewrite Er. rewrite Hnav in H0, Hrs.
  assert (Hrow : forall n item row,
            renderRow best (existsb has_nav (ranked_funds data)) n item = Ok row ->
            nav_cell_of data (bv_etf item) row).
  { intros n item row Hr.
    destruct (renderRow_inv _ _ _ _ _ Hr) as (Es & _).
    destruct (renderRow_fields _ _ _ _ _ Hr) as (_ & _ & En & Eu & _).
    unfold nav_cell_of. rewrite En. split; [exact Es|]. split; [exact Eu|].
    destruct (existsb has_nav (ranked_funds data)); [|reflexivity].
    unfold navCell. destruct (truthy (nav_price (bv_etf item))); auto. }
  constructor; [exact (Hrow _ _ _ H0)|].
  eapply Forall2_impl; [|exact Hrs]. intros item row (n & _ & Hr). exact (Hrow _ _ _ Hr).
Qed.

Lemma nav_column_witness :
  exists t, renderComparison dom_full sample_with_nav = Ok (Table t)
    /\ map (fun row => (row_symbol row, row_navUpdated row)) (tv_rows t)
       = [("B", false); ("C", false); ("A", true)]
    /\ map (fun row => match row_nav row with
                       | Some (Some cell) => Some (Some (nav_shown cell))
                       | Some None => Some None
                       | None => None
                       end) (tv_rows t)
       = [Some None; Some None; Some (Some (Fin 118))]
    /\ Forall2 (fun item row => nav_cell_of sample_with_nav (bv_etf item) row)
         (etfsWithBaseValue sample_with_nav) (tv_rows t).
Proof.
  eexists. split; [vm_compute; reflexivity|].
  split; [vm_compute; reflexivity|]. split; [vm_compute; reflexivity|].
  exact (nav_column dom_full sample_with_nav _ eq_refl).
Defined.

(** ** The two rankings *)

Lemma sort_insert_map {A B} (f : A -> B) (cmpA : A -> A -> jsnum)
    (cmpB : B -> B -> jsnum) :
  (forall a b, cmpB (f a) (f b) = cmpA a b) ->
  forall x l, sort_insert cmpB (f x) (map f l) = map f (sort_insert cmpA x l).
Proof.
  intros Hc x l. induction l as [|h t IH]; simpl; [reflexivity|].
  unfold comes_after. rewrite Hc.
  destruct (num_ltb (Fin 0) (cmpA x h)); simpl; [rewrite IH|]; reflexivity.
Qed.

Lemma js_sort_map {A B} (f : A -> B) (cmpA : A -> A -> jsnum)
    (cmpB : B -> B -> jsnum) :
  (forall a b, cmpB (f a) (f b) = cmpA a b) ->
  forall l, js_sort cmpB (map f l) = map f (js_sort cmpA l).
Proof.
  intros Hc l. induction l as [|x t IH]; simpl; [reflexivity|].
  rewrite IH. apply sort_insert_map, Hc.
Qed.

Lemma etfsWithPerGram_funds (data : Data) :
  map pg_etf (etfsWithPerGram data)
  = js_sort byFundPerGram
      (filter (fun etf => truthy (gold_backing_grams etf)) (all_etfs data)).
Proof.
  unfold etfsWithPerGram.
  rewrite (js_sort_map _ byFundPerGram byPerGram) by reflexivity.
  rewrite map_map. simpl. apply map_id.
Qed.

Lemma etfsWithBaseValue_funds (data : Data) :
  map bv_etf (etfsWithBaseValue data) = js_sort byFundPerGram (ranked_funds data).
Proof.
  unfold etfsWithBaseValue, qualifying. fold (ranked_funds data).
  rewrite (js_sort_map _ byFundPerGram byBaseValue) by reflexivity.
  rewrite map_map. simpl. apply map_id.
Qed.

(** X8: when every fund with a backing also has a positive price and a
    positive backing, the ranking computed for the cards and the ranking
    computed for the table hold the same funds in the same order, and the
    cheapest symbol selected for the cards is the symbol of the table's
    best fund. *)
Theorem rankings_coincide (data : Data) :
  filters_agree data ->
  map pg_etf (etfsWithPerGram data) = map bv_etf (etfsWithBaseValue data)
  /\ cheapestEtfSymbol data
     = option_map (fun item => symbol (bv_etf item)) (hd_error (etfsWithBaseValue data)).
Proof.
  intro Ha.
  assert (E : map pg_etf (etfsWithPerGram data) = map bv_etf (etfsWithBaseValue data)).
  { rewrite etfsWithPerGram_funds, etfsWithBaseValue_funds,
      (filters_agree_filter data Ha). reflexivity. }
  split; [exact E|]. unfold cheapestEtfSymbol.
  destruct (etfsWithPerGram data) as [|a l], (etfsWithBaseValue data) as [|b l'];
    simpl in *; try discriminate; [reflexivity|].
  injection E as -> _. reflexivity.
Qed.

Lemma rankings_coincide_witness :
  filters_agree sample_tie
  /\ map pg_etf (etfsWithPerGram sample_tie) = map bv_etf (etfsWithBaseValue sample_tie)
  /\ cheapestEtfSymbol sample_tie = Some "A".
Proof.
  split; [exact sample_tie_filters_agree|].
  destruct (rankings_coincide sample_tie sample_tie_filters_agree) as (E1 & E2).
  split; [exact E1 | exact E2].
Defined.

(** ** [compareETFs]: the page once the request settles *)

Lemma appendCards_shown (dom : Dom) (data : Data) (funds : list Etf) :
  forall shown,
    appendCards dom data funds shown
    = (shown ++ fst (appendCards dom data funds []),
       snd (appendCards dom data funds [])).
Proof.
  induction funds as [|etf rest IH]; intro shown; simpl.
  - rewrite app_nil_r. reflexivity.
  - destruct (renderCard dom data etf) as [card|w]; simpl.
    + rewrite (IH (shown ++ [card])), (IH [card]). simpl.
      rewrite <- app_assoc. reflexivity.
    + rewrite app_nil_r. reflexivity.
Qed.

(** The loop and the all-or-nothing [mapM] agree when no card throws;
    otherwise the loop keeps the cards of the funds before the one that
    throws. *)
Lemma appendCards_mapM (dom : Dom) (data : Data) (funds : list Etf) :
  match mapM (renderCard dom data) funds with
  | Ok cards => appendCards dom data funds [] = (cards, None)
  | TypeError w =>
      exists done etf rest cards,
        funds = done ++ etf :: rest
        /\ mapM (renderCard dom data) done = Ok cards
        /\ renderCard dom data etf = TypeError w
        /\ appendCards dom data funds [] = (cards, Some w)
  end.
Proof.
  induction funds as [|etf rest IH]; simpl; [reflexivity|].
  destruct (renderCard dom data etf) as [card|w] eqn:Ec; cbn [bind].
  - rewrite (appendCards_shown dom data rest [card]).
    destruct (mapM (renderCard dom data) rest) as [cards|w]; cbn [bind].
    + rewrite IH. reflexivity.
    + destruct IH as (done & bad & rest' & cards & -> & Hd & Hb & Ha).
      exists (etf :: done), bad, rest', (card :: cards).
      split; [reflexivity|]. split; [simpl; rewrite Ec, Hd; reflexivity|].
      split; [exact Hb|]. rewrite Ha. reflexivity.
  - exists [], etf, rest, []. auto.
Qed.

Lemma appendCards_no_list (dom : Dom) (data : Data) (funds : list Etf) :
  dom_etfList dom = false -> fst (appendCards dom data funds []) = [].
Proof.
  intro Hd. destruct funds as [|etf rest]; [reflexivity|]. simpl.
  destruct (renderCard dom data etf) as [card|w] eqn:E; [|reflexivity].
  exfalso. assert (H : card_can_render dom data etf)
    by (apply renderCard_ok_iff; eauto).
  destruct H as [H _]. congruence.
Qed.

Lemma displayResultsOn_eq (dom : Dom) (data : Data) (p : Page) :
  displayResultsOn dom data p
  = (displayed dom data p, snd (appendCards dom data (all_etfs data) [])).
Proof.
  unfold displayResultsOn, displayed, shown_comparison.
  destruct (renderComparison_total dom data) as (c & ->).
  match goal with
  | |- context [appendCards dom data (all_etfs data) ?s] =>
      rewrite (appendCards_shown dom data (all_etfs data) s)
  end.
  destruct (snd (appendCards dom data (all_etfs data) [])) as [w|];
    destruct (dom_recommendation dom), (dom_etfList dom),
      (dom_baseValueComparison dom); reflexivity.
Qed.

Lemma thrown_by_cards (dom : Dom) (data : Data) :
  snd (appendCards dom data (all_etfs data) [])
  = match displayResults dom data with
    | Ok _ => None
    | TypeError w => Some w
    end.
Proof.
  unfold displayResults. destruct (renderComparison_total dom data) as (c & ->).
  cbn [bind]. pose proof (appendCards_mapM dom data (all_etfs data)) as H.
  destruct (mapM (renderCard dom data) (all_etfs data)) as [cards|w]; cbn [bind].
  - rewrite H. reflexivity.
  - destruct H as (? & ? & ? & ? & _ & _ & _ & ->). reflexivity.
Qed.

(** X10: however the request ends, [compareETFs] leaves the loading
    indicator hidden, and the error box is shown exactly when the run
    failed (the fetch rejected, the status was not 2xx, the body did not
    parse, or [displayResults] threw).  After a run that did not fail the
    results are shown and hold what [displayResults] rendered; after a
    failure before [displayResults] the results stay hidden with their
    previous content. *)
Theorem compareETFs_settles (dom : Dom) (outcome : FetchOutcome) (p : Page) :
  let q := compareETFs dom outcome p in
  loading_hidden q = true
  /\ error_hidden q = negb (run_fails dom outcome)
  /\ (forall status data r,
        outcome = Response status (inr data) -> response_ok status = true ->
        displayResults dom data = Ok r ->
        results_hidden q = false
        /\ error_text q = error_text p
        /\ (dom_recommendation dom = true ->
            page_recommendation q = r_recommendation r)
        /\ (dom_baseValueComparison dom = true ->
            page_comparison q = Some (r_comparison r))
        /\ (dom_etfList dom = true -> page_cards q = r_cards r))
  /\ ((forall status data, outcome = Response status (inr data) ->
         response_ok status = false) ->
      results_hidden q = true
      /\ page_recommendation q = page_recommendation p
      /\ page_comparison q = page_comparison p
      /\ page_cards q = page_cards p).
Proof.
  unfold compareETFs. cbv zeta. split; [reflexivity|]. split; [|split].
  - destruct outcome as [m|status [m|data]]; simpl; try reflexivity;
      destruct (response_ok status); try reflexivity.
    rewrite displayResultsOn_eq, thrown_by_cards.
    destruct (displayResults dom data); reflexivity.
  - intros status data r -> Hok Hr. rewrite Hok, displayResultsOn_eq, thrown_by_cards, Hr.
    destruct (displayResults_inv dom data r Hr) as [Hc Hcards].
    pose proof (appendCards_mapM dom data (all_etfs data)) as Ha.
    rewrite Hcards in Ha. simpl. unfold shown_comparison. rewrite Hc, Ha.
    repeat split.
    + intro Hd. rewrite Hd. unfold displayResults in Hr. rewrite Hc, Hcards in Hr.
      cbn [bind] in Hr. injection Hr as <-. simpl. rewrite Hd. reflexivity.
    + intros ->. reflexivity.
    + intros ->. reflexivity.
  - intro Hno. destruct outcome as [m|status [m|data]]; simpl.
    + repeat split.
    + destruct (response_ok status); repeat split.
    + rewrite (Hno status data eq_refl). repeat split.
Qed.

(** X11: when [displayResults] throws, the error box is shown next to
    results that are already visible: the results element has lost its
    [hidden] class and has its inline [display: block], the comparison
    panel is filled, and the card list holds the cards of the funds that
    come before the fund whose card threw. *)
Theorem display_throw_leaves_partial_results (dom : Dom) (status : nat)
    (data : Data) (w : string) (p : Page) :
  response_ok status = true ->
  displayResults dom data = TypeError w ->
  let q := compareETFs dom (Response status (inr data)) p in
  error_hidden q = false
  /\ error_text q = Some (DisplayThrew w)
  /\ results_hidden q = false /\ results_block q = true
  /\ (dom_baseValueComparison dom = true ->
      exists c, renderComparison dom data = Ok c /\ page_comparison q = Some c)
  /\ exists done etf rest cards,
       all_etfs data = done ++ etf :: rest
       /\ mapM (renderCard dom data) done = Ok cards
       /\ renderCard dom data etf = TypeError w
       /\ page_cards q = (if dom_etfList dom then [] else page_cards p) ++ cards.
Proof.
  intros Hok Hthrow. unfold compareETFs. cbv zeta.
  rewrite Hok, displayResultsOn_eq, thrown_by_cards, Hthrow. simpl.
  repeat split.
  - intros ->. unfold shown_comparison.
    destruct (renderComparison_total dom data) as (c & ->). eauto.
  - pose proof (appendCards_mapM dom data (all_etfs data)) as Ha.
    unfold displayResults in Hthrow.
    destruct (renderComparison_total dom data) as (c & Hc). rewrite Hc in Hthrow.
    cbn [bind] in Hthrow.
    destruct (mapM (renderCard dom data) (all_etfs data)) as [cards|w'];
      cbn [bind] in Hthrow; [discriminate|]. injection Hthrow as ->.
    destruct Ha as (done & etf & rest & cards & E & Hd & Hb & Ha).
    exists done, etf, rest, cards. rewrite Ha. auto.
Qed.

Lemma display_throw_leaves_partial_results_witness :
  let q := compareETFs dom_full (Response 200 (inr sample_missing_percent)) blank_page in
  response_ok 200 = true
  /\ displayResults dom_full sample_missing_percent
     = TypeError "priceDiff.percent.toFixed"
  /\ error_hidden q = false /\ results_hidden q = false.
Proof.
  split; [reflexivity|]. split; [vm_compute; reflexivity|].
  destruct (display_throw_leaves_partial_results dom_full 200 sample_missing_percent
              "priceDiff.percent.toFixed" blank_page eq_refl)
    as (He & _ & Hr & _).
  - vm_compute. reflexivity.
  - split; [exact He | exact Hr].
Defined.

Lemma displayed_twice (dom : Dom) (data : Data) (p : Page) (hidden : bool)
    (text : option ErrorCause) :
  displayed dom data
    (hideResults (hideError (showLoading
       (hideLoading (set_error hidden text (displayed dom data p))))))
  = set_error true text (set_loading_hidden false (displayed dom data p)).
Proof.
  unfold displayed, hideResults, hideError, showLoading, hideLoading,
    set_results, set_error, set_loading_hidden. simpl.
  destruct (dom_recommendation dom), (dom_baseValueComparison dom); simpl;
    destruct (dom_etfList dom) eqn:El; simpl; try reflexivity;
    rewrite (appendCards_no_list dom data _ El), !app_nil_r; reflexivity.
Qed.

(** X12: running [compareETFs] again with the same outcome changes
    nothing: the list is emptied before the cards are appended, so a
    refresh never duplicates cards, and every other element is rewritten
    with the same content. *)
Theorem compareETFs_idempotent (dom : Dom) (outcome : FetchOutcome) (p : Page) :
  compareETFs dom outcome (compareETFs dom outcome p) = compareETFs dom outcome p.
Proof.
  unfold compareETFs. cbv zeta.
  destruct outcome as [m|status [m|data]]; try reflexivity.
  - destruct (response_ok status); reflexivity.
  - destruct (response_ok status); [|reflexivity].
    rewrite !displayResultsOn_eq.
    destruct (snd (appendCards dom data (all_etfs data) [])) as [w|].
    + unfold showError. rewrite displayed_twice. reflexivity.
    + replace (displayed dom data (hideResults (hideError (showLoading p))))
        with (set_error true (error_text p) (displayed dom data
                (hideResults (hideError (showLoading p))))) at 1 by reflexivity.
      rewrite displayed_twice. reflexivity.
Qed.

(** * Properties of the ranking in double precision *)

(** ** Binary64: order, and signs of differences, quotients and products

    Facts about the primitive floats, derived from their specification
    [SpecFloat]: comparisons order the values that are not [NaN]; the
    sign of a difference is the comparison of its operands, because a
    difference that is not 0 never rounds to 0; quotients and products
    of values that are not negative are not negative. *)

Module Binary64.
Import Doubles.
Lemma SFcompare_key a b :
  sf_nonnan a = true -> sf_nonnan b = true ->
  SFcompare a b = Some (lex3 (sf_key a) (sf_key b)).
Proof.
  destruct a as [sa|sa| |sa ma ea], b as [sb|sb| |sb mb eb];
    try discriminate; intros _ _;
    try destruct sa; try destruct sb; try reflexivity.
  cbn [SFcompare sf_key lex3]. rewrite Z.compare_opp.
    change (-1 ?= -1)%Z with Eq. cbv iota.
    rewrite (Z.compare_antisym ea eb).
    destruct (ea ?= eb)%Z; reflexivity.
Qed.

Lemma lex3_le k1 k2 : lex3 k1 k2 <> Gt <-> lex_le k1 k2.
Proof.
  destruct k1 as [[c1 e1] m1], k2 as [[c2 e2] m2]. cbn [lex3 lex_le].
  destruct (Z.compare_spec c1 c2), (Z.compare_spec e1 e2),
    (Z.compare_spec m1 m2); split; intros; try congruence; try lia.
Qed.

Lemma lex3_lt k1 k2 : lex3 k1 k2 = Lt <-> ~ lex_le k2 k1.
Proof.
  destruct k1 as [[c1 e1] m1], k2 as [[c2 e2] m2]. cbn [lex3 lex_le].
  destruct (Z.compare_spec c1 c2), (Z.compare_spec e1 e2),
    (Z.compare_spec m1 m2); split; intros; try congruence; try lia.
Qed.

Lemma lex3_eq k1 k2 : lex3 k1 k2 = Eq <-> lex_le k1 k2 /\ lex_le k2 k1.
Proof.
  destruct k1 as [[c1 e1] m1], k2 as [[c2 e2] m2]. cbn [lex3 lex_le].
  destruct (Z.compare_spec c1 c2), (Z.compare_spec e1 e2),
    (Z.compare_spec m1 m2); split; intros; try congruence; try lia.
Qed.

Lemma lex_le_trans k1 k2 k3 : lex_le k1 k2 -> lex_le k2 k3 -> lex_le k1 k3.
Proof.
  destruct k1 as [[c1 e1] m1], k2 as [[c2 e2] m2], k3 as [[c3 e3] m3].
  cbn [lex_le]. lia.
Qed.

Lemma lex_le_total k1 k2 : lex_le k1 k2 \/ lex_le k2 k1.
Proof.
  destruct k1 as [[c1 e1] m1], k2 as [[c2 e2] m2]. cbn [lex_le]. lia.
Qed.

Section Rounding.
Variables prec emax : Z.
Hypothesis prec_positive : (0 < prec)%Z.

Lemma shr_1_m mrs :
  (0 <= shr_m mrs)%Z -> shr_m (shr_1 mrs) = Z.div2 (shr_m mrs).
Proof.
  destruct mrs as [[|[p|p|]|p] r s]; cbn; intros; try reflexivity; lia.
Qed.

Lemma iter_pos_shr_1 n :
  forall mrs, (0 <= shr_m mrs)%Z ->
  shr_m (iter_pos shr_1 n mrs) = Z.shiftr (shr_m mrs) (Zpos n).
Proof.
  induction n as [n IH|n IH|]; intros mrs H; cbn [iter_pos].
  - assert (H1 : (0 <= shr_m (shr_1 mrs))%Z).
    { rewrite shr_1_m, Z.div2_spec by assumption. now apply Z.shiftr_nonneg. }
    assert (H2 : (0 <= shr_m (iter_pos shr_1 n (shr_1 mrs)))%Z).
    { rewrite IH by assumption. now apply Z.shiftr_nonneg. }
    rewrite IH, IH, shr_1_m, Z.div2_spec by assumption.
    rewrite !Z.shiftr_shiftr by lia. f_equal. lia.
  - assert (H2 : (0 <= shr_m (iter_pos shr_1 n mrs))%Z).
    { rewrite IH by assumption. now apply Z.shiftr_nonneg. }
    rewrite IH, IH by assumption.
    rewrite Z.shiftr_shiftr by lia. f_equal. lia.
  - rewrite shr_1_m, Z.div2_spec by assumption. reflexivity.
Qed.

Lemma shr_record_of_loc_m m l : shr_m (shr_record_of_loc m l) = m.
Proof. destruct l as [|[]]; reflexivity. Qed.

Lemma digits2_log2 p : Zpos (digits2_pos p) = Z.succ (Z.log2 (Zpos p)).
Proof.
  assert (E : forall q, digits2_pos q = Pos.size q).
  { induction q; cbn; congruence. }
  rewrite E. destruct p; cbn; lia.
Qed.

Lemma shr_fexp_nonneg m e l :
  (0 <= m)%Z -> (0 <= shr_m (fst (shr_fexp prec emax m e l)))%Z.
Proof.
  intros H. unfold shr_fexp, shr.
  destruct (fexp prec emax (Zdigits2 m + e) - e)%Z; cbn [fst];
    rewrite ?iter_pos_shr_1; rewrite shr_record_of_loc_m; try assumption.
  now apply Z.shiftr_nonneg.
Qed.

Lemma shr_fexp_pos m e l :
  (0 < m)%Z -> (SpecFloat.emin prec emax <= e)%Z ->
  (0 < shr_m (fst (shr_fexp prec emax m e l)))%Z /\
  (SpecFloat.emin prec emax <= snd (shr_fexp prec emax m e l))%Z.
Proof.
  intros Hm He. unfold shr_fexp, shr.
  destruct (fexp prec emax (Zdigits2 m + e) - e)%Z as [|n|n] eqn:En;
    cbn [fst snd]; rewrite ?iter_pos_shr_1;
    rewrite shr_record_of_loc_m; try lia.
  split; [|lia].
  destruct m as [|p|p]; try lia.
  cbn [Zdigits2] in En. rewrite digits2_log2 in En. unfold fexp in En.
  assert (Hn : (Zpos n <= Z.log2 (Zpos p))%Z) by lia.
  assert (H0 : (0 <= Z.shiftr (Zpos p) (Zpos n))%Z)
    by (apply Z.shiftr_nonneg; lia).
  assert (H1 : Z.shiftr (Zpos p) (Zpos n) <> 0%Z).
  { intros E. apply Z.shiftr_eq_0_iff in E. lia. }
  lia.
Qed.

Lemma round_nearest_even_ge m l : (m <= round_nearest_even m l)%Z.
Proof.
  destruct l as [|[]]; cbn [round_nearest_even]; try lia.
  destruct (Z.even m); lia.
Qed.

Lemma binary_round_aux_signed s m e l :
  (0 <= m)%Z -> sf_signed s (binary_round_aux prec emax s m e l) = true.
Proof.
  intros H. unfold binary_round_aux.
  pose proof (shr_fexp_nonneg m e l H) as H1.
  destruct (shr_fexp prec emax m e l) as [mrs' e']. cbn [fst] in H1.
  pose proof (round_nearest_even_ge (shr_m mrs') (loc_of_shr_record mrs')) as H2.
  pose proof (shr_fexp_nonneg
    (round_nearest_even (shr_m mrs') (loc_of_shr_record mrs')) e' loc_Exact
    ltac:(lia)) as H3.
  destruct (shr_fexp prec emax _ e' loc_Exact) as [mrs'' e'']. cbn [fst] in H3.
  destruct (shr_m mrs''); try lia.
  - cbn. apply eqb_reflx.
  - destruct (e'' <=? emax - prec)%Z; cbn; apply eqb_reflx.
Qed.

Lemma binary_round_aux_nonzero s m e l :
  (0 < m)%Z -> (SpecFloat.emin prec emax <= e)%Z ->
  sf_is_zero (binary_round_aux prec emax s m e l) = false.
Proof.
  intros H He. unfold binary_round_aux.
  pose proof (shr_fexp_pos m e l H He) as [H1 H1'].
  destruct (shr_fexp prec emax m e l) as [mrs' e']. cbn [fst snd] in H1, H1'.
  pose proof (round_nearest_even_ge (shr_m mrs') (loc_of_shr_record mrs')) as H2.
  pose proof (shr_fexp_pos
    (round_nearest_even (shr_m mrs') (loc_of_shr_record mrs')) e' loc_Exact
    ltac:(lia) H1') as [H3 _].
  destruct (shr_fexp prec emax _ e' loc_Exact) as [mrs'' e'']. cbn [fst] in H3.
  destruct (shr_m mrs''); try lia.
  destruct (e'' <=? emax - prec)%Z; reflexivity.
Qed.

Lemma pos_iter_xO m d : Zpos (Pos.iter xO m d) = (Zpos m * 2 ^ Zpos d)%Z.
Proof.
  induction d as [|d IH] using Pos.peano_ind.
  - cbn. lia.
  - rewrite Pos.iter_succ, Pos2Z.inj_succ, Z.pow_succ_r by lia.
    rewrite Pos2Z.inj_xO, IH. lia.
Qed.

Lemma shl_align_fst m e e' :
  (e' <= e)%Z ->
  Zpos (fst (shl_align m e e')) = (Zpos m * 2 ^ (e - e'))%Z.
Proof.
  intros H. unfold shl_align.
  destruct (e' - e)%Z as [|d|d] eqn:E; cbn [fst]; try lia.
  - replace (e - e')%Z with 0%Z by lia. lia.
  - rewrite pos_iter_xO. f_equal. f_equal. lia.
Qed.

Lemma shl_align_snd m e e' :
  snd (shl_align m e e') = Z.min e e'.
Proof.
  unfold shl_align.
  destruct (e' - e)%Z as [|d|d] eqn:E; cbn [snd]; lia.
Qed.

Lemma binary_round_signed s m e :
  sf_signed s (binary_round prec emax s m e) = true.
Proof.
  unfold binary_round. destruct (shl_align _ _ _) as [mz ez].
  apply binary_round_aux_signed. lia.
Qed.

Lemma binary_round_nonzero s m e :
  (SpecFloat.emin prec emax <= e)%Z ->
  sf_is_zero (binary_round prec emax s m e) = false.
Proof.
  intros He. unfold binary_round.
  pose proof (shl_align_snd m e (fexp prec emax (Zpos (digits2_pos m) + e))) as E.
  destruct (shl_align _ _ _) as [mz ez]. cbn [snd] in E.
  apply binary_round_aux_nonzero; [lia|].
  unfold fexp in E. lia.
Qed.

Lemma bounded_facts m e :
  bounded prec emax m e = true ->
  (SpecFloat.emin prec emax <= e)%Z /\ (Zpos m < 2 ^ prec)%Z /\
  ((SpecFloat.emin prec emax < e)%Z -> (2 ^ prec <= 2 * Zpos m)%Z).
Proof.
  unfold bounded, canonical_mantissa, fexp. intros H.
  apply andb_prop in H as [H _]. apply Z.eqb_eq in H.
  rewrite digits2_log2 in H.
  destruct (Z.log2_spec (Zpos m) ltac:(lia)) as [L1 L2].
  assert (L0 : (0 <= Z.log2 (Zpos m))%Z) by apply Z.log2_nonneg.
  split; [lia|]. split.
  - assert (2 ^ Z.succ (Z.log2 (Zpos m)) <= 2 ^ prec)%Z
      by (apply Z.pow_le_mono_r; lia).
    lia.
  - intros He. assert (E : prec = Z.succ (Z.log2 (Zpos m))) by lia.
    rewrite E, Z.pow_succ_r by assumption. lia.
Qed.

Lemma aligned_compare mx ex my ey :
  bounded prec emax mx ex = true -> bounded prec emax my ey = true ->
  (Zpos (fst (shl_align mx ex (Z.min ex ey))) ?=
   Zpos (fst (shl_align my ey (Z.min ex ey))))%Z =
  match (ex ?= ey)%Z with
  | Eq => Pos.compare_cont Eq mx my
  | r => r
  end.
Proof.
  intros Bx By.
  destruct (bounded_facts _ _ Bx) as (X1 & X2 & X3).
  destruct (bounded_facts _ _ By) as (Y1 & Y2 & Y3).
  rewrite !shl_align_fst by lia.
  destruct (Z.compare_spec ex ey) as [E|L|G].
  - subst ey. rewrite Z.min_id, Z.sub_diag. cbn [Z.pow].
    rewrite !Z.mul_1_r. reflexivity.
  - rewrite Z.min_l by lia. rewrite Z.sub_diag. cbn [Z.pow].
    apply Z.compare_lt_iff.
    assert (2 ^ 1 <= 2 ^ (ey - ex))%Z by (apply Z.pow_le_mono_r; lia).
    specialize (Y3 ltac:(lia)). nia.
  - rewrite Z.min_r by lia. rewrite Z.sub_diag. cbn [Z.pow].
    apply Z.compare_gt_iff.
    assert (2 ^ 1 <= 2 ^ (ex - ey))%Z by (apply Z.pow_le_mono_r; lia).
    specialize (X3 ltac:(lia)). nia.
Qed.

Lemma signed_nonzero_compare s r :
  sf_signed s r = true -> sf_is_zero r = false ->
  SFcompare r (S754_zero false) = Some (if s then Lt else Gt).
Proof.
  destruct r as [s'|s'| |s' m e]; cbn; try discriminate;
    destruct s, s'; try discriminate; reflexivity.
Qed.

Lemma binary_normalize_compare m e :
  (SpecFloat.emin prec emax <= e)%Z ->
  SFcompare (binary_normalize prec emax m e false) (S754_zero false) =
  Some (m ?= 0)%Z.
Proof.
  intros He. destruct m as [|p|p]; cbn [binary_normalize].
  - reflexivity.
  - apply (signed_nonzero_compare false).
    + apply binary_round_signed.
    + now apply binary_round_nonzero.
  - apply (signed_nonzero_compare true).
    + apply binary_round_signed.
    + now apply binary_round_nonzero.
Qed.

Lemma SFsub_compare a b :
  SpecFloat.valid_binary prec emax a = true -> SpecFloat.valid_binary prec emax b = true ->
  sf_nonnan (SFsub prec emax a b) = true ->
  SFcompare (SFsub prec emax a b) (S754_zero false) = SFcompare a b.
Proof.
  destruct a as [sa|sa| |sa ma ea], b as [sb|sb| |sb mb eb];
    cbn [SpecFloat.valid_binary]; intros Va Vb;
    try (destruct sa); try (destruct sb); try reflexivity;
    try discriminate; intros _; cbn [SFsub].
  all: destruct (bounded_facts _ _ Va) as (A1 & _);
    destruct (bounded_facts _ _ Vb) as (B1 & _);
    rewrite binary_normalize_compare by lia;
    cbn [SFcompare cond_Zopp]; f_equal;
    pose proof (aligned_compare _ _ _ _ Va Vb) as C.
  - match goal with |- ((- ?x - - ?y ?= 0) = _)%Z =>
      replace (- x - - y)%Z with (y - x)%Z by lia end.
    rewrite <- Z.compare_sub, Z.compare_antisym, C.
    destruct (ea ?= eb)%Z; reflexivity.
  - rewrite <- Z.compare_sub, C. reflexivity.
Qed.

Lemma SFsub_nan a b :
  sf_nonnan a = true -> sf_nonnan b = true ->
  SpecFloat.valid_binary prec emax a = true -> SpecFloat.valid_binary prec emax b = true ->
  sf_nonnan (SFsub prec emax a b) = false ->
  exists s, a = S754_infinity s /\ b = S754_infinity s.
Proof.
  destruct a as [sa|sa| |sa ma ea], b as [sb|sb| |sb mb eb];
    cbn [SpecFloat.valid_binary sf_nonnan]; intros Na Nb Va Vb;
    try discriminate Na; try discriminate Nb;
    try (destruct sa); try (destruct sb); cbn [SFsub sf_nonnan];
    try discriminate; try (intros _; eexists; split; reflexivity).
  all: destruct (bounded_facts _ _ Va) as (A1 & _);
    destruct (bounded_facts _ _ Vb) as (B1 & _);
    match goal with |- context [binary_normalize _ _ ?m ?e _] =>
      pose proof (binary_normalize_compare m e ltac:(lia)) as C;
      destruct (binary_normalize prec emax m e false)
    end; discriminate.
Qed.

End Rounding.

Section SpecSigns.
Variables prec emax : Z.

Lemma signed_leb r : sf_signed false r = true -> SFleb (S754_zero false) r = true.
Proof. destruct r as [[]|[]| |[] m e]; cbn; congruence. Qed.

Lemma SFdiv_core_nonneg m1 e1 m2 e2 :
  (0 <= fst (fst (SFdiv_core_binary prec emax (Zpos m1) e1 (Zpos m2) e2)))%Z.
Proof.
  unfold SFdiv_core_binary.
  match goal with |- context [Z.div_eucl ?a ?b] =>
    assert (H : (0 <= a)%Z);
    [| pose proof (Z.div_pos a b H ltac:(lia)) as Q; unfold Z.div in Q;
       destruct (Z.div_eucl a b) as [q r]; exact Q]
  end.
  destruct (e1 - e2 - _)%Z; try lia.
  apply Z.shiftl_nonneg. lia.
Qed.

Lemma SFdiv_nonneg a b :
  SFleb (S754_zero false) a = true -> SFltb (S754_zero false) b = true ->
  sf_nonnan (SFdiv prec emax a b) = true ->
  SFleb (S754_zero false) (SFdiv prec emax a b) = true.
Proof.
  destruct a as [sa|sa| |sa ma ea], b as [sb|sb| |sb mb eb];
    try destruct sa; try destruct sb; try discriminate; try reflexivity.
  intros _ _ _. apply signed_leb. cbn [SFdiv xorb].
  pose proof (SFdiv_core_nonneg ma ea mb eb) as H.
  destruct (SFdiv_core_binary _ _ _ _ _ _) as [[mz ez] lz]. cbn [fst] in H.
  now apply binary_round_aux_signed.
Qed.

Lemma SFdiv_nan a b :
  SFleb (S754_zero false) a = true -> SFltb (S754_zero false) b = true ->
  sf_nonnan (SFdiv prec emax a b) = false ->
  a = S754_infinity false /\ b = S754_infinity false.
Proof.
  destruct a as [sa|sa| |sa ma ea], b as [sb|sb| |sb mb eb];
    try destruct sa; try destruct sb; try discriminate; try (now split).
  intros _ _. cbn [SFdiv xorb].
  pose proof (SFdiv_core_nonneg ma ea mb eb) as H.
  destruct (SFdiv_core_binary _ _ _ _ _ _) as [[mz ez] lz]. cbn [fst] in H.
  pose proof (binary_round_aux_signed prec emax false mz ez lz H) as S.
  destruct (binary_round_aux _ _ _ _ _ _); discriminate.
Qed.



Lemma SFdiv_zero a b :
  SFeqb a (S754_zero false) = true ->
  sf_nonnan b = true -> sf_is_zero b = false ->
  SFeqb (SFdiv prec emax a b) (S754_zero false) = true.
Proof.
  destruct a as [sa|sa| |sa ma ea], b as [sb|sb| |sb mb eb];
    try destruct sa; try destruct sb; try discriminate; reflexivity.
Qed.

End SpecSigns.

Local Open Scope float_scope.

Lemma binary64_prec : (0 < prec)%Z.
Proof. reflexivity. Qed.

Lemma not_nan_spec x : not_nan x = sf_nonnan (Prim2SF x).
Proof.
  unfold not_nan. rewrite eqb_spec. unfold SFeqb.
  destruct (Prim2SF x) as [s|s| |s m e] eqn:E; try reflexivity.
  - destruct s; reflexivity.
  - rewrite SFcompare_key by reflexivity.
    destruct (lex3_eq (sf_key (S754_finite s m e)) (sf_key (S754_finite s m e)))
      as [_ H].
    rewrite H; [reflexivity|]. destruct (lex_le_total
      (sf_key (S754_finite s m e)) (sf_key (S754_finite s m e))); now split.
Qed.

Lemma leb_key x y :
  not_nan x = true -> not_nan y = true ->
  (x <=? y) = true <-> lex_le (sf_key (Prim2SF x)) (sf_key (Prim2SF y)).
Proof.
  rewrite !not_nan_spec, leb_spec. intros Hx Hy. unfold SFleb.
  rewrite SFcompare_key by assumption. rewrite <- lex3_le.
  destruct (lex3 _ _); split; congruence.
Qed.

Lemma ltb_key x y :
  not_nan x = true -> not_nan y = true ->
  (x <? y) = true <-> ~ lex_le (sf_key (Prim2SF y)) (sf_key (Prim2SF x)).
Proof.
  rewrite !not_nan_spec, ltb_spec. intros Hx Hy. unfold SFltb.
  rewrite SFcompare_key by assumption. rewrite <- lex3_lt.
  destruct (lex3 _ _); split; congruence.
Qed.

Lemma eqb_key x y :
  not_nan x = true -> not_nan y = true ->
  (x =? y) = true <->
  lex_le (sf_key (Prim2SF x)) (sf_key (Prim2SF y)) /\
  lex_le (sf_key (Prim2SF y)) (sf_key (Prim2SF x)).
Proof.
  rewrite !not_nan_spec, eqb_spec. intros Hx Hy. unfold SFeqb.
  rewrite SFcompare_key by assumption. rewrite <- lex3_eq.
  destruct (lex3 _ _); split; congruence.
Qed.

Lemma leb_not_nan x y :
  (x <=? y) = true -> not_nan x = true /\ not_nan y = true.
Proof.
  rewrite !not_nan_spec, leb_spec. unfold SFleb.
  destruct (Prim2SF x), (Prim2SF y); cbn; try discriminate; now split.
Qed.

Lemma ltb_not_nan x y :
  (x <? y) = true -> not_nan x = true /\ not_nan y = true.
Proof.
  rewrite !not_nan_spec, ltb_spec. unfold SFltb.
  destruct (Prim2SF x), (Prim2SF y); cbn; try discriminate; now split.
Qed.

Lemma eqb_not_nan x y :
  (x =? y) = true -> not_nan x = true /\ not_nan y = true.
Proof.
  rewrite !not_nan_spec, eqb_spec. unfold SFeqb.
  destruct (Prim2SF x), (Prim2SF y); cbn; try discriminate; now split.
Qed.

Lemma leb_refl x : not_nan x = true -> (x <=? x) = true.
Proof.
  intros H. apply leb_key; try assumption.
  destruct (lex_le_total (sf_key (Prim2SF x)) (sf_key (Prim2SF x)));
    assumption.
Qed.

Lemma leb_trans x y z :
  (x <=? y) = true -> (y <=? z) = true -> (x <=? z) = true.
Proof.
  intros H1 H2.
  destruct (leb_not_nan _ _ H1) as [Nx Ny].
  destruct (leb_not_nan _ _ H2) as [_ Nz].
  apply leb_key in H1, H2; try assumption. apply leb_key; try assumption.
  eapply lex_le_trans; eassumption.
Qed.

Lemma ltb_negb_leb x y :
  not_nan x = true -> not_nan y = true -> (x <? y) = negb (y <=? x).
Proof.
  intros Nx Ny.
  pose proof (ltb_key x y Nx Ny) as L. pose proof (leb_key y x Ny Nx) as R.
  destruct (x <? y), (y <=? x); cbn; try reflexivity.
  - exfalso. apply L; [reflexivity|]. now apply R.
  - exfalso. assert (N : ~ lex_le (sf_key (Prim2SF y)) (sf_key (Prim2SF x))).
    { intros K. apply R in K. discriminate. }
    apply L in N. discriminate.
Qed.

Lemma leb_total x y :
  not_nan x = true -> not_nan y = true ->
  (x <=? y) = true \/ (y <=? x) = true.
Proof.
  intros Nx Ny.
  destruct (lex_le_total (sf_key (Prim2SF x)) (sf_key (Prim2SF y))) as [K|K].
  - left. now apply leb_key.
  - right. now apply leb_key.
Qed.

Lemma eqb_leb x y : (x =? y) = (x <=? y) && (y <=? x).
Proof.
  destruct (not_nan x) eqn:Nx, (not_nan y) eqn:Ny.
  - pose proof (eqb_key x y Nx Ny) as E.
    pose proof (leb_key x y Nx Ny) as L. pose proof (leb_key y x Ny Nx) as R.
    destruct (x =? y), (x <=? y), (y <=? x); cbn; try reflexivity; exfalso.
    + destruct E as [E _]. specialize (E eq_refl) as [_ E]. apply R in E.
      discriminate.
    + destruct E as [E _]. specialize (E eq_refl) as [E _]. apply L in E.
      discriminate.
    + destruct E as [E _]. specialize (E eq_refl) as [E _]. apply L in E.
      discriminate.
    + destruct E as [_ E]. enough (false = true) by discriminate.
      apply E. split; [now apply L | now apply R].
  - destruct (x =? y) eqn:E; [apply eqb_not_nan in E as [_ E]; congruence|].
    destruct (x <=? y) eqn:L; [apply leb_not_nan in L as [_ L]; congruence|].
    reflexivity.
  - destruct (x =? y) eqn:E; [apply eqb_not_nan in E as [E _]; congruence|].
    destruct (x <=? y) eqn:L; [apply leb_not_nan in L as [L _]; congruence|].
    reflexivity.
  - destruct (x =? y) eqn:E; [apply eqb_not_nan in E as [E _]; congruence|].
    destruct (x <=? y) eqn:L; [apply leb_not_nan in L as [L _]; congruence|].
    reflexivity.
Qed.

Lemma Prim2SF_zero : Prim2SF 0 = (S754_zero false).
Proof. reflexivity. Qed.

Lemma lex3_antisym k1 k2 : lex3 k2 k1 = CompOpp (lex3 k1 k2).
Proof.
  destruct k1 as [[c1 e1] m1], k2 as [[c2 e2] m2]. cbn [lex3].
  rewrite (Z.compare_antisym c1 c2), (Z.compare_antisym e1 e2),
    (Z.compare_antisym m1 m2).
  destruct (c1 ?= c2)%Z, (e1 ?= e2)%Z, (m1 ?= m2)%Z; reflexivity.
Qed.

Lemma SFcompare_antisym a b :
  SFcompare b a = option_map CompOpp (SFcompare a b).
Proof.
  destruct (sf_nonnan a) eqn:Na, (sf_nonnan b) eqn:Nb.
  - rewrite !SFcompare_key by assumption. cbn. f_equal. apply lex3_antisym.
  - destruct b; try discriminate. destruct a; reflexivity.
  - destruct a; try discriminate. destruct b; reflexivity.
  - destruct a; try discriminate. destruct b; reflexivity.
Qed.

Lemma double_comparator_sign x y :
  not_nan x = true -> not_nan y = true -> (0 <? x - y) = (y <? x).
Proof.
  rewrite !not_nan_spec. intros Nx Ny.
  rewrite !ltb_spec, sub_spec, Prim2SF_zero. unfold SFltb, SF64sub.
  rewrite (SFcompare_antisym _ (S754_zero false)), (SFcompare_antisym (Prim2SF x)).
  destruct (sf_nonnan (SFsub prec emax (Prim2SF x) (Prim2SF y))) eqn:N.
  - rewrite (SFsub_compare prec emax binary64_prec _ _
      (Prim2SF_valid x) (Prim2SF_valid y) N). reflexivity.
  - destruct (SFsub_nan prec emax binary64_prec _ _ Nx Ny
      (Prim2SF_valid x) (Prim2SF_valid y) N) as (s & -> & ->).
    destruct s; reflexivity.
Qed.

Lemma sub_sign x y :
  not_nan x = true -> not_nan y = true -> (x - y <? 0) = (x <? y).
Proof.
  rewrite !not_nan_spec. intros Nx Ny.
  rewrite !ltb_spec, sub_spec, Prim2SF_zero. unfold SFltb, SF64sub.
  destruct (sf_nonnan (SFsub prec emax (Prim2SF x) (Prim2SF y))) eqn:N.
  - rewrite (SFsub_compare prec emax binary64_prec _ _
      (Prim2SF_valid x) (Prim2SF_valid y) N). reflexivity.
  - destruct (SFsub_nan prec emax binary64_prec _ _ Nx Ny
      (Prim2SF_valid x) (Prim2SF_valid y) N) as (s & -> & ->).
    destruct s; reflexivity.
Qed.




Lemma div_nonneg a c :
  (0 <=? a) = true -> (0 <? c) = true -> not_nan (a / c) = true ->
  (0 <=? a / c) = true.
Proof.
  rewrite not_nan_spec, !leb_spec, ltb_spec, div_spec, Prim2SF_zero.
  apply SFdiv_nonneg.
Qed.

Lemma div_not_nan a c :
  (0 <=? a) = true -> (0 <? c) = true ->
  (isFinite a = true \/ isFinite c = true) -> not_nan (a / c) = true.
Proof.
  intros Ha Hc F. destruct (not_nan (a / c)) eqn:N; [reflexivity|exfalso].
  rewrite not_nan_spec, div_spec in N.
  rewrite leb_spec, Prim2SF_zero in Ha. rewrite ltb_spec, Prim2SF_zero in Hc.
  destruct (SFdiv_nan prec emax _ _ Ha Hc N) as [Ea Ec].
  unfold isFinite in F. rewrite !ltb_spec, !abs_spec, Ea, Ec in F.
  destruct F; discriminate.
Qed.


Lemma zero_div p g :
  (p =? 0) = true -> (g =? 0) = false -> not_nan g = true ->
  (p / g =? 0) = true.
Proof.
  rewrite not_nan_spec, !eqb_spec, div_spec, Prim2SF_zero.
  intros Hp Hg Ng. apply SFdiv_zero; trivial.
  destruct (Prim2SF g) as [s|s| |s m e]; try reflexivity; discriminate.
Qed.

End Binary64.

(** ** The rankings, the rows and the cards on doubles *)

Module DoubleRanking.
Import Doubles Binary64.
Local Open Scope float_scope.

(** ** The sort on doubles: a stable sorted permutation, and the only one *)

Section SortTheory.
Context {A : Type} (key : A -> float).

Lemma comes_after_ltb (a b : A) :
  key_defined key a -> key_defined key b ->
  comes_after (by_key key) a b = (key b <? key a).
Proof. intros Ha Hb. apply double_comparator_sign; assumption. Qed.

Lemma comes_after_true (a b : A) :
  key_defined key a -> key_defined key b ->
  comes_after (by_key key) a b = true -> key_le key b a.
Proof.
  intros Ha Hb H. rewrite comes_after_ltb in H by assumption.
  rewrite (ltb_negb_leb _ _ Hb Ha) in H. apply negb_true_iff in H.
  destruct (leb_total _ _ Ha Hb) as [L|L]; [congruence | exact L].
Qed.

Lemma comes_after_false (a b : A) :
  key_defined key a -> key_defined key b ->
  comes_after (by_key key) a b = false -> key_le key a b.
Proof.
  intros Ha Hb H. rewrite comes_after_ltb in H by assumption.
  rewrite (ltb_negb_leb _ _ Hb Ha) in H. now apply negb_false_iff in H.
Qed.

Lemma sort_insert_perm64 (cmp : A -> A -> float) (x : A) (l : list A) :
  Permutation (x :: l) (sort_insert cmp x l).
Proof.
  induction l as [|h t IH]; simpl.
  - apply Permutation_refl.
  - destruct (comes_after cmp x h).
    + eapply perm_trans; [apply perm_swap | apply perm_skip, IH].
    + apply Permutation_refl.
Qed.

Lemma js_sort_perm64 (cmp : A -> A -> float) (l : list A) :
  Permutation l (js_sort cmp l).
Proof.
  induction l as [|x t IH]; simpl.
  - constructor.
  - eapply perm_trans; [apply perm_skip, IH | apply sort_insert_perm64].
Qed.

Lemma key_le_trans64 (a b c : A) :
  key_le key a b -> key_le key b c -> key_le key a c.
Proof. apply leb_trans. Qed.

Lemma sort_insert_sorted64 (x : A) (l : list A) :
  key_defined key x -> Forall (key_defined key) l ->
  StronglySorted (key_le key) l ->
  StronglySorted (key_le key) (sort_insert (by_key key) x l).
Proof.
  intros Hx Hl Hs. induction Hs as [|h t Hs IH Hh]; simpl.
  - repeat constructor.
  - inversion Hl as [|? ? Hfh Hft]; subst.
    destruct (comes_after (by_key key) x h) eqn:E.
    + apply comes_after_true in E; trivial.
      constructor; [apply IH; assumption|].
      eapply Permutation_Forall; [apply sort_insert_perm64|].
      constructor; [exact E | exact Hh].
    + apply comes_after_false in E; trivial.
      constructor; [constructor; assumption|].
      constructor; [exact E|].
      eapply Forall_impl; [|exact Hh].
      intros y Hy. eapply key_le_trans64; eassumption.
Qed.

Lemma same_key_not_after (x : float) (a b : A) :
  same_key key x a = true -> same_key key x b = true ->
  (key b <? key a) = false.
Proof.
  unfold same_key. rewrite !eqb_leb. intros Ea Eb.
  apply andb_prop in Ea as [Ea1 Ea2]. apply andb_prop in Eb as [Eb1 Eb2].
  destruct (leb_not_nan _ _ Ea1) as [Na _].
  destruct (leb_not_nan _ _ Eb1) as [Nb _].
  rewrite (ltb_negb_leb _ _ Nb Na).
  rewrite (leb_trans _ _ _ Ea1 Eb2). reflexivity.
Qed.

Lemma sort_insert_stable64 (x : A) (l : list A) (k : float) :
  key_defined key x -> Forall (key_defined key) l ->
  filter (same_key key k) (sort_insert (by_key key) x l)
  = filter (same_key key k) (x :: l).
Proof.
  intros Hx Hl. induction Hl as [|h t Hh Ht IH]; [reflexivity|].
  simpl sort_insert. destruct (comes_after (by_key key) x h) eqn:E; [|reflexivity].
  rewrite comes_after_ltb in E by assumption.
  simpl in *. rewrite IH.
  destruct (same_key key k h) eqn:Eh; [|reflexivity].
  destruct (same_key key k x) eqn:Ex; [|reflexivity].
  rewrite (same_key_not_after k x h Ex Eh) in E. discriminate.
Qed.

Lemma js_sort_defined (cmp : A -> A -> float) (l : list A) :
  Forall (key_defined key) l -> Forall (key_defined key) (js_sort cmp l).
Proof. intro H. eapply Permutation_Forall; [apply js_sort_perm64 | exact H]. Qed.

(** When no key is [NaN] the insertion sort meets the specification. *)
Lemma js_sort_stable_sort64 (l : list A) :
  Forall (key_defined key) l -> stable_sort_of key l (js_sort (by_key key) l).
Proof.
  intro Hl. split.
  - induction Hl as [|x t Hx Ht IH]; simpl; [constructor|].
    apply sort_insert_sorted64; auto using js_sort_defined.
  - apply js_sort_perm64.
  - intro k. induction Hl as [|x t Hx Ht IH]; simpl; [reflexivity|].
    rewrite sort_insert_stable64 by auto using js_sort_defined.
    simpl. rewrite IH. reflexivity.
Qed.

Lemma sorted_heads_same_key64 (a b : A) (t1 t2 : list A) :
  Forall (key_defined key) (a :: t1) ->
  StronglySorted (key_le key) (a :: t1) -> StronglySorted (key_le key) (b :: t2) ->
  Permutation (a :: t1) (b :: t2) -> (key b =? key a) = true.
Proof.
  intros D S1 S2 P.
  apply StronglySorted_inv in S1 as [_ F1].
  apply StronglySorted_inv in S2 as [_ F2].
  rewrite Forall_forall in F1, F2, D.
  assert (Hb : In b (a :: t1)).
  { eapply Permutation_in; [apply Permutation_sym, P | left; reflexivity]. }
  assert (Ha : In a (b :: t2)).
  { eapply Permutation_in; [apply P | left; reflexivity]. }
  assert (L1 : (key a <=? key b) = true).
  { destruct Hb as [->|Hb]; [apply leb_refl, D; now left | apply F1, Hb]. }
  assert (L2 : (key b <=? key a) = true).
  { destruct Ha as [->|Ha]; [apply leb_refl, D; now left | apply F2, Ha]. }
  rewrite eqb_leb, L1, L2. reflexivity.
Qed.

(** Two results that meet the specification for the same input are the
    same list: the order does not depend on the sorting algorithm. *)
Lemma stable_sorted_unique64 (l1 l2 : list A) :
  Forall (key_defined key) l1 ->
  StronglySorted (key_le key) l1 -> StronglySorted (key_le key) l2 ->
  Permutation l1 l2 ->
  (forall k, filter (same_key key k) l1 = filter (same_key key k) l2) ->
  l1 = l2.
Proof.
  revert l2. induction l1 as [|a t1 IH]; intros l2 D S1 S2 P F.
  - apply Permutation_nil in P. congruence.
  - destruct l2 as [|b t2].
    + apply Permutation_sym, Permutation_nil in P. discriminate.
    + pose proof (sorted_heads_same_key64 _ _ _ _ D S1 S2 P) as Hk.
      assert (a = b) as <-.
      { specialize (F (key a)). simpl in F.
        assert (Ea : same_key key (key a) a = true)
          by (inversion D; assumption).
        assert (Eb : same_key key (key a) b = true) by exact Hk.
        rewrite Ea, Eb in F. congruence. }
      f_equal. apply IH.
      * inversion D; assumption.
      * apply StronglySorted_inv in S1. tauto.
      * apply StronglySorted_inv in S2. tauto.
      * eapply Permutation_cons_inv, P.
      * intro k. specialize (F k). simpl in F.
        destruct (same_key key k a); congruence.
Qed.

Lemma stable_sort_unique64 (l l1 l2 : list A) :
  Forall (key_defined key) l ->
  stable_sort_of key l l1 -> stable_sort_of key l l2 -> l1 = l2.
Proof.
  intros D [S1 P1 F1] [S2 P2 F2]. apply stable_sorted_unique64; trivial.
  - eapply Permutation_Forall; eassumption.
  - eapply perm_trans; [apply Permutation_sym, P1 | exact P2].
  - intro k. rewrite F1, F2. reflexivity.
Qed.

Lemma StronglySorted_impl_in (R S : A -> A -> Prop) (l : list A) :
  (forall a b, In a l -> In b l -> R a b -> S a b) ->
  StronglySorted R l -> StronglySorted S l.
Proof.
  intros H Hs. induction Hs as [|x t Hs IH Hx]; constructor.
  - apply IH. intros a b Ha Hb. apply H; now right.
  - rewrite Forall_forall in *. intros y Hy.
    apply H; [now left | now right | now apply Hx].
Qed.

(** On keys that are not [NaN] the comparator answers 0 exactly for
    equal keys. *)
Lemma ties_same_key (x y : A) :
  key_defined key x -> key_defined key y ->
  ties (by_key key) x y = same_key key (key x) y.
Proof.
  intros Hx Hy. unfold ties, by_key, same_key.
  rewrite (double_comparator_sign _ _ Hy Hx), (sub_sign _ _ Hy Hx).
  rewrite (ltb_negb_leb _ _ Hx Hy), (ltb_negb_leb _ _ Hy Hx), !negb_involutive.
  rewrite eqb_leb. reflexivity.
Qed.

Lemma same_key_class (k : float) (x y : A) :
  same_key key k x = true -> same_key key k y = same_key key (key x) y.
Proof.
  unfold same_key. rewrite !eqb_leb. intros E.
  apply andb_prop in E as [E1 E2].
  destruct (key y <=? k) eqn:L1, (k <=? key y) eqn:L2; cbn.
  - now rewrite (leb_trans _ _ _ L1 E2), (leb_trans _ _ _ E1 L2).
  - destruct (key x <=? key y) eqn:L3; [|now rewrite andb_false_r].
    now rewrite (leb_trans _ _ _ E2 L3) in L2.
  - destruct (key y <=? key x) eqn:L3; [|reflexivity].
    now rewrite (leb_trans _ _ _ L3 E1) in L1.
  - destruct (key y <=? key x) eqn:L3; [|reflexivity].
    now rewrite (leb_trans _ _ _ L3 E1) in L1.
Qed.

(** The contract on the comparator and the specification on the keys are
    the same requirement when no key is [NaN]. *)
Lemma sorted_by_stable_sort (l l' : list A) :
  Forall (key_defined key) l ->
  sorted_by (by_key key) l l' -> stable_sort_of key l l'.
Proof.
  intros D [P S F].
  assert (D' : Forall (key_defined key) l')
    by (eapply Permutation_Forall; eassumption).
  rewrite Forall_forall in D, D'. split; [|exact P|].
  - eapply StronglySorted_impl_in; [|exact S].
    intros a b Ha Hb. apply comes_after_false; auto.
  - intros k. destruct (existsb (same_key key k) l) eqn:Ex.
    + apply existsb_exists in Ex as (x & Hx & Ek).
      rewrite (filter_ext_in (same_key key k) (ties (by_key key) x) l').
      2:{ intros y Hy. rewrite (same_key_class k x y Ek).
          symmetry. apply ties_same_key; auto. }
      rewrite (filter_ext_in (same_key key k) (ties (by_key key) x) l).
      2:{ intros y Hy. rewrite (same_key_class k x y Ek).
          symmetry. apply ties_same_key; auto. }
      now apply F.
    + assert (N : forall m, Forall (fun y => same_key key k y = false) m ->
                    filter (same_key key k) m = []).
      { induction 1 as [|y t Hy _ IH]; simpl; [reflexivity|]. now rewrite Hy. }
      assert (Fl : Forall (fun y => same_key key k y = false) l).
      { apply Forall_forall. intros y Hy.
        destruct (same_key key k y) eqn:E; [|reflexivity].
        assert (existsb (same_key key k) l = true)
          by (apply existsb_exists; eauto).
        congruence. }
      rewrite (N l Fl), (N l'); [reflexivity|].
      eapply Permutation_Forall; eassumption.
Qed.

Lemma stable_sort_sorted_by (l l' : list A) :
  Forall (key_defined key) l ->
  stable_sort_of key l l' -> sorted_by (by_key key) l l'.
Proof.
  intros D [S P F].
  assert (D' : Forall (key_defined key) l')
    by (eapply Permutation_Forall; eassumption).
  rewrite Forall_forall in D, D'. split; [exact P| |].
  - eapply StronglySorted_impl_in; [|exact S].
    intros a b Ha Hb L. unfold key_le in L.
    rewrite comes_after_ltb by auto.
    rewrite (ltb_negb_leb _ _ (D' b Hb) (D' a Ha)), L. reflexivity.
  - intros x Hx.
    rewrite (filter_ext_in (ties (by_key key) x) (same_key key (key x)) l').
    2:{ intros y Hy. apply ties_same_key; auto. }
    rewrite (filter_ext_in (ties (by_key key) x) (same_key key (key x)) l).
    2:{ intros y Hy. apply ties_same_key; auto. }
    apply F.
Qed.

End SortTheory.

(** ** The funds ranked in the table *)

Lemma ltb_leb64 (x y : float) : (x <? y) = true -> (x <=? y) = true.
Proof.
  intros H. destruct (ltb_not_nan _ _ H) as [Nx Ny].
  rewrite (ltb_negb_leb _ _ Nx Ny) in H. apply negb_true_iff in H.
  destruct (leb_total _ _ Nx Ny) as [L|L]; [exact L | congruence].
Qed.

Lemma has_price_and_backing_inv64 (etf : Etf) :
  has_price_and_backing etf = true ->
  exists p g, current_price etf = Num p /\ gold_backing_grams etf = Num g
    /\ (0 <? p) = true /\ (0 <? g) = true.
Proof.
  unfold has_price_and_backing, js_gt. intros H.
  apply andb_prop in H as [H Hg]. apply andb_prop in H as [Hp _].
  destruct (current_price etf) as [| |p]; try discriminate Hp.
  destruct (gold_backing_grams etf) as [| |g]; try discriminate Hg.
  exists p, g. repeat split; assumption.
Qed.

Lemma ranked_has_backing (etf : Etf) :
  has_price_and_backing etf = true -> has_backing etf = true.
Proof.
  unfold has_price_and_backing, has_backing. intros H.
  apply andb_prop in H as [H _]. apply andb_prop in H as [_ H]. exact H.
Qed.

(** The per-gram price of a ranked fund is not negative; it is a number
    as soon as the price or the backing is finite. *)
Lemma ranked_key_nonneg (etf : Etf) :
  has_price_and_backing etf = true -> not_nan (perGram etf) = true ->
  (0 <=? perGram etf) = true.
Proof.
  intros H N. destruct (has_price_and_backing_inv64 etf H)
    as (p & g & Ep & Eg & Hp & Hg).
  unfold perGram, js_div in *. rewrite Ep, Eg in *. cbn [field_val ToNumber] in *.
  apply div_nonneg; auto using ltb_leb64.
Qed.

Lemma ranked_key_defined (etf : Etf) :
  has_price_and_backing etf = true ->
  isFinite (ToNumber (field_val (current_price etf))) = true
  \/ isFinite (ToNumber (field_val (gold_backing_grams etf))) = true ->
  not_nan (perGram etf) = true.
Proof.
  intros H F. destruct (has_price_and_backing_inv64 etf H)
    as (p & g & Ep & Eg & Hp & Hg).
  unfold perGram, js_div in *. rewrite Ep, Eg in *. cbn [field_val ToNumber] in *.
  apply div_not_nan; auto using ltb_leb64.
Qed.

Lemma keys_defined_Forall (funds : list Etf) :
  keys_defined funds = true <-> Forall (key_defined perGram) funds.
Proof.
  unfold keys_defined. rewrite forallb_forall, Forall_forall. reflexivity.
Qed.

Lemma qualifying_defined (data : Data) :
  keys_defined (ranked_funds data) = true ->
  Forall (key_defined bv_perGramPrice) (qualifying data).
Proof.
  intros H. apply keys_defined_Forall in H. unfold qualifying.
  apply Forall_map. exact H.
Qed.

Lemma etfsWithBaseValue_sorted_by (data : Data) :
  keys_defined (ranked_funds data) = true ->
  sorted_by byBaseValue (qualifying data) (etfsWithBaseValue data).
Proof.
  intros H. apply (stable_sort_sorted_by bv_perGramPrice).
  - now apply qualifying_defined.
  - apply (js_sort_stable_sort64 bv_perGramPrice). now apply qualifying_defined.
Qed.

Lemma etfsWithBaseValue_stable_sort64 (data : Data) :
  keys_defined (ranked_funds data) = true ->
  stable_sort_of bv_perGramPrice (qualifying data) (etfsWithBaseValue data).
Proof.
  intros H. apply (js_sort_stable_sort64 bv_perGramPrice).
  now apply qualifying_defined.
Qed.

(** Every item of the ranking is the item built from its own fund, a
    fund of the response with a price and a backing above 0. *)
Lemma ranked_inv64 (data : Data) (item : BaseValueItem) :
  In item (etfsWithBaseValue data) ->
  item = base_value_item (bv_etf item)
  /\ In (bv_etf item) (ranked_funds data).
Proof.
  intros H.
  eapply Permutation_in in H;
    [|apply Permutation_sym, (js_sort_perm64 byBaseValue)].
  unfold qualifying in H. apply in_map_iff in H as (etf & <- & Hin).
  split; [reflexivity | exact Hin].
Qed.

Lemma StronglySorted_map {A B : Type} (f : A -> B) (R : B -> B -> Prop)
    (l : list A) :
  StronglySorted R (map f l) <-> StronglySorted (fun a b => R (f a) (f b)) l.
Proof.
  induction l as [|x t IH]; simpl.
  - split; constructor.
  - split; intros H; apply StronglySorted_inv in H as [H1 H2]; constructor.
    + now apply IH.
    + rewrite Forall_forall in *. intros y Hy. apply H2, in_map, Hy.
    + now apply IH.
    + rewrite Forall_forall in *. intros y Hy.
      apply in_map_iff in Hy as (z & <- & Hz). now apply H2.
Qed.


(** ** The first fund of lowest per-gram price *)

Lemma first_cheapest_In64 (funds : list Etf) (f : Etf) :
  first_cheapest funds = Some f -> In f funds.
Proof.
  revert f. induction funds as [|x rest IH]; simpl; [discriminate|].
  intros f. destruct (first_cheapest rest) as [m|].
  - destruct (perGram m <? perGram x); intro H; injection H as <-; auto.
  - intro H. injection H as <-. auto.
Qed.

Lemma first_cheapest_None64 (funds : list Etf) :
  first_cheapest funds = None -> funds = [].
Proof.
  destruct funds as [|x rest]; simpl; [reflexivity|].
  destruct (first_cheapest rest); [destruct (_ <? _)|]; discriminate.
Qed.

Lemma is_first_lowest_all64 (funds : list Etf) (f : Etf) :
  key_defined perGram f -> is_first_lowest funds f ->
  Forall (fun y => (perGram f <=? perGram y) = true) funds.
Proof.
  intros Hf (l1 & l2 & -> & H1 & H2).
  apply Forall_app. split.
  - eapply Forall_impl; [|exact H1]. intros y. apply ltb_leb64.
  - constructor; [apply leb_refl, Hf | exact H2].
Qed.

(** [first_cheapest] returns the first fund of lowest per-gram price. *)
Lemma first_cheapest_spec64 (funds : list Etf) :
  Forall (key_defined perGram) funds ->
  forall f, first_cheapest funds = Some f -> is_first_lowest funds f.
Proof.
  induction 1 as [|x rest Hx Hrest IH]; simpl; [discriminate|].
  intros f. destruct (first_cheapest rest) as [m|] eqn:Em.
  - specialize (IH m eq_refl).
    assert (Hm : key_defined perGram m).
    { rewrite Forall_forall in Hrest. apply Hrest, first_cheapest_In64, Em. }
    destruct (perGram m <? perGram x) eqn:Elt; intro H; injection H as <-.
    + destruct IH as (l1 & l2 & -> & H1 & H2).
      exists (x :: l1), l2. repeat split; trivial. constructor; assumption.
    + exists [], rest. repeat split; [constructor|].
      pose proof (is_first_lowest_all64 rest m Hm IH) as Hall.
      eapply Forall_impl; [|exact Hall]. intros y Hy.
      eapply leb_trans; [|exact Hy].
      rewrite (ltb_negb_leb _ _ Hm Hx) in Elt.
      now apply negb_false_iff in Elt.
  - intro H. injection H as <-. apply first_cheapest_None64 in Em as ->.
    exists [], []. repeat split; constructor.
Qed.

Section SortHead.
Context {A : Type} (key : A -> float) (mk : Etf -> A).
Hypothesis key_mk : forall f, key (mk f) = perGram f.

(** The sorted list starts with the first fund of lowest per-gram price. *)
Lemma sort_head64 (funds : list Etf) :
  Forall (key_defined perGram) funds ->
  hd_error (js_sort (by_key key) (map mk funds))
  = option_map mk (first_cheapest funds).
Proof.
  induction 1 as [|x rest Hx Hrest IH]; simpl; [reflexivity|].
  destruct (first_cheapest rest) as [m|] eqn:Em; simpl in IH.
  - destruct (js_sort (by_key key) (map mk rest)) as [|h t]; [discriminate|].
    simpl in IH. injection IH as ->. simpl.
    assert (Hm : key_defined perGram m).
    { rewrite Forall_forall in Hrest. apply Hrest, first_cheapest_In64, Em. }
    unfold comes_after, by_key. rewrite !key_mk.
    rewrite (double_comparator_sign _ _ Hx Hm).
    destruct (perGram m <? perGram x); reflexivity.
  - apply first_cheapest_None64 in Em as ->. reflexivity.
Qed.
End SortHead.


Lemma cheapestPerGramPrice_head (data : Data) :
  keys_defined (backed_funds data) = true ->
  cheapestPerGramPrice data
  = match first_cheapest (backed_funds data) with
    | Some f => JNumber (perGram f)
    | None => JNull
    end.
Proof.
  intro H. unfold cheapestPerGramPrice, etfsWithPerGram.
  pose proof (sort_head64 pg_perGramPrice
                (fun etf => {| pg_etf := etf; pg_perGramPrice := perGram etf |})
                (fun _ => eq_refl) (backed_funds data)
                (proj1 (keys_defined_Forall _) H)) as Hh.
  change byPerGram with (by_key pg_perGramPrice).
  fold (backed_funds data).
  destruct (js_sort _ _) as [|h t]; destruct (first_cheapest (backed_funds data));
    simpl in Hh; try discriminate; [reflexivity|].
  injection Hh as ->. reflexivity.
Qed.

(** ** The rows of the table *)


Lemma rows_symbols (best : BaseValueItem) (items : list BaseValueItem)
    (n : nat) :
  map row_symbol (forEachIndexed (renderRow best) n items)
  = map (fun item => symbol (bv_etf item)) items.
Proof.
  revert n. induction items as [|x t IH]; intros n; simpl; [reflexivity|].
  now rewrite IH.
Qed.

Lemma filter_none {A : Type} (f : A -> bool) (l : list A) :
  Forall (fun x => f x = false) l -> filter f l = [].
Proof.
  induction 1 as [|x t Hx _ IH]; simpl; [reflexivity|]. now rewrite Hx.
Qed.







(** ** The cards *)

Lemma cheapestCards_filter (data : Data) :
  cheapestCards data = map symbol (filter (isCheapest data) (all_etfs data)).
Proof.
  unfold cheapestCards, cards.
  induction (all_etfs data) as [|x t IH]; simpl; [reflexivity|].
  destruct (isCheapest data x); simpl; now rewrite IH.
Qed.

Lemma isCheapest_test (data : Data) (etf : Etf) :
  isCheapest data etf
  = truthy (cheapestPerGramPrice data)
    && within_tolerance (ToNumber (cheapestPerGramPrice data)) etf.
Proof.
  unfold isCheapest, within_tolerance, has_backing, cardPerGramPrice, js_sub.
  destruct (truthy (field_val (gold_backing_grams etf)));
    destruct (truthy (cheapestPerGramPrice data)); reflexivity.
Qed.



(** With a cheapest per-gram price of 0, [NaN] or [null] no card is
    marked. *)
Lemma no_card_marked (data : Data) :
  truthy (cheapestPerGramPrice data) = false -> cheapestCards data = [].
Proof.
  intros T. rewrite cheapestCards_filter.
  rewrite filter_none; [reflexivity|]. apply Forall_forall.
  intros etf _. rewrite isCheapest_test, T. reflexivity.
Qed.

(** ** The fund marked cheapest *)




(** ** The cheapest row and the differences *)






(** ** Determinism of the ranking *)

(** C6: when no ranked per-gram price is [NaN], two runs of the
    sort on the same funds, each returning what the language asks of
    [sort] for the comparator [a.perGramPrice - b.perGramPrice], return
    the same ranking, the one computed here, and the rows built from
    them, with their differences, are the same. *)
Theorem ranking_deterministic (data : Data) (run1 run2 : list BaseValueItem) :
  keys_defined (ranked_funds data) = true ->
  sorted_by byBaseValue (qualifying data) run1 ->
  sorted_by byBaseValue (qualifying data) run2 ->
  run1 = run2
  /\ run1 = etfsWithBaseValue data
  /\ rowsOf run1 = rowsOf run2
  /\ rowsOf run1 = tableRows data.
Proof.
  intros H S1 S2.
  pose proof (qualifying_defined data H) as D.
  pose proof (etfsWithBaseValue_stable_sort64 data H) as S.
  apply (sorted_by_stable_sort bv_perGramPrice _ _ D) in S1, S2.
  assert (E1 : run1 = etfsWithBaseValue data)
    by (eapply stable_sort_unique64; eassumption).
  assert (E2 : run2 = etfsWithBaseValue data)
    by (eapply stable_sort_unique64; eassumption).
  subst. repeat split; congruence.
Qed.

Lemma ranking_deterministic_witness :
  keys_defined (ranked_funds sample_rounded_tie) = true
  /\ map (fun item => symbol (bv_etf item)) (etfsWithBaseValue sample_rounded_tie)
     = ["A"; "B"]
  /\ rowsOf (etfsWithBaseValue sample_rounded_tie) = tableRows sample_rounded_tie.
Proof.
  split; [reflexivity|]. split; [vm_compute; reflexivity|].
  apply (ranking_deterministic sample_rounded_tie
           (etfsWithBaseValue sample_rounded_tie)
           (etfsWithBaseValue sample_rounded_tie) eq_refl
           (etfsWithBaseValue_sorted_by sample_rounded_tie eq_refl)
           (etfsWithBaseValue_sorted_by sample_rounded_tie eq_refl)).
Defined.

(** ** Who decides the order of display *)




(** ** The order of the rows *)

Lemma rows_perGram (best : BaseValueItem) (items : list BaseValueItem)
    (n : nat) :
  map row_perGramPrice (forEachIndexed (renderRow best) n items)
  = map (fun item => perGram (bv_etf item)) items.
Proof.
  revert n. induction items as [|x t IH]; intros n; simpl; [reflexivity|].
  now rewrite IH.
Qed.

(** X4: when no ranked per-gram price is [NaN], the table lists every
    fund with a price and a backing above 0 exactly once (its symbols are
    a rearrangement of theirs), in ascending order of the per-gram price
    its rows print. *)
Theorem table_rows_ascending (data : Data) :
  keys_defined (ranked_funds data) = true ->
  StronglySorted (fun x y => (x <=? y) = true)
    (map row_perGramPrice (tableRows data))
  /\ Permutation (map symbol (ranked_funds data)) (rowOrder data).
Proof.
  intros H. destruct (etfsWithBaseValue_stable_sort64 data H) as [S P _].
  assert (I : Forall (fun item => item = base_value_item (bv_etf item))
                (etfsWithBaseValue data)).
  { apply Forall_forall. intros item Hin. now apply ranked_inv64 in Hin. }
  assert (Ek : map row_perGramPrice (tableRows data)
               = map bv_perGramPrice (etfsWithBaseValue data)).
  { unfold tableRows, rowsOf.
    destruct (etfsWithBaseValue data) as [|best rest] eqn:E; [reflexivity|].
    rewrite rows_perGram. apply map_ext_in. intros item Hin.
    rewrite Forall_forall in I. rewrite (I item Hin) at 2. reflexivity. }
  assert (Es : rowOrder data
               = map (fun item => symbol (bv_etf item)) (etfsWithBaseValue data)).
  { unfold rowOrder, tableRows, rowsOf.
    destruct (etfsWithBaseValue data) as [|best rest]; [reflexivity|].
    apply rows_symbols. }
  split.
  - rewrite Ek. apply StronglySorted_map. exact S.
  - rewrite Es. unfold qualifying in P. fold (ranked_funds data) in P.
    apply (Permutation_map (fun item => symbol (bv_etf item))) in P.
    rewrite map_map in P. exact P.
Qed.

Lemma table_rows_ascending_witness :
  keys_defined (ranked_funds sample_rounded_order) = true
  /\ rowOrder sample_rounded_order = ["B"; "A"]
  /\ StronglySorted (fun x y => (x <=? y) = true)
       (map row_perGramPrice (tableRows sample_rounded_order)).
Proof.
  split; [reflexivity|]. split; [vm_compute; reflexivity|].
  apply (table_rows_ascending sample_rounded_order eq_refl).
Defined.

(** ** A fund priced at 0 *)

Lemma free_fund_key (etf : Etf) :
  has_backing etf = true -> free_fund etf = true -> (perGram etf =? 0) = true.
Proof.
  unfold has_backing, free_fund, perGram, js_div.
  destruct (gold_backing_grams etf) as [| |g]; try discriminate.
  cbn [field_val truthy ToNumber]. unfold num_truthy. intros B.
  apply andb_prop in B as [Bz Bn]. apply negb_true_iff in Bz.
  destruct (current_price etf) as [| |p]; try discriminate;
    cbn [field_val ToNumber]; intros F; now apply zero_div.
Qed.

(** X9: when every fund with a backing has a per-gram price that is a
    number not below 0, and one of them is priced at 0 (or has a null
    price), the cheapest per-gram price of the card ranking is 0, which
    the card test treats as absent: no card is marked cheapest, whatever
    the table marks. *)
Theorem zero_price_hides_cheapest (data : Data) :
  backed_nonneg data = true -> has_free_fund data = true ->
  cheapestCards data = [].
Proof.
  unfold backed_nonneg, has_free_fund. intros Hnn Hfree.
  rewrite forallb_forall in Hnn.
  apply existsb_exists in Hfree as (z & Hz & Fz).
  assert (K : keys_defined (backed_funds data) = true).
  { apply forallb_forall. intros etf Hin.
    now destruct (leb_not_nan _ _ (Hnn etf Hin)). }
  apply no_card_marked. rewrite (cheapestPerGramPrice_head data K).
  destruct (first_cheapest (backed_funds data)) as [f|] eqn:Ef; [|reflexivity].
  pose proof (first_cheapest_In64 _ _ Ef) as Hf.
  pose proof (first_cheapest_spec64 _ (proj1 (keys_defined_Forall _) K) f Ef)
    as L.
  apply is_first_lowest_all64 in L;
    [|now destruct (leb_not_nan _ _ (Hnn f Hf))].
  rewrite Forall_forall in L. specialize (L z Hz).
  assert (Bz : has_backing z = true)
    by (unfold backed_funds in Hz; now apply filter_In in Hz).
  pose proof (free_fund_key z Bz Fz) as Ez. rewrite eqb_leb in Ez.
  apply andb_prop in Ez as [Ez _].
  cbn [truthy]. unfold num_truthy.
  rewrite eqb_leb, (leb_trans _ _ _ L Ez), (Hnn f Hf). reflexivity.
Qed.

Lemma zero_price_hides_cheapest_witness :
  backed_nonneg sample_free_fund = true
  /\ has_free_fund sample_free_fund = true
  /\ cheapestCards sample_free_fund = []
  /\ bestRows sample_free_fund = ["B"].
Proof.
  split; [reflexivity|]. split; [reflexivity|].
  split; [|vm_compute; reflexivity].
  apply (zero_price_hides_cheapest sample_free_fund); reflexivity.
Defined.

(** ** The stored and the recomputed per-gram price *)


End DoubleRanking.

(** ** The per-gram price against the price *)



